(** * stateToHTML: a shallow embedding of draft-js-export-html

    The development follows [src/stateToHTML.js]: the string helpers of the
    JavaScript runtime that the code uses ([split], [join], [repeat],
    [trim]), the two encoders, the whitespace pass, the inline rendering of
    a block and the [MarkupGenerator] traversal.

    JavaScript strings are sequences of code units.  A code unit is modelled
    as an [ascii], so texts range over the Latin-1 block, which holds every
    character the code tests for (space, [&], [<], [>], the double quote,
    newline and U+00A0). *)

From Stdlib Require Import Ascii.
From Stdlib Require String DecimalString.
From stdpp Require Import base list strings gmap.

(** stdpp keeps [String.append] folded; the proofs below compute with it. *)
#[global] Arguments String.append !_ _ / : simpl nomatch.

(** ** Runtime string helpers *)

Module Js.

(** U+00A0 and the newline, as code units. *)
Definition NBSP : ascii := "160"%char.
Definition LF : ascii := "010"%char.

(** [s.split(sep)] for a separator of one code unit. *)
Fixpoint split (sep : ascii) (s : string) : list string :=
  match s with
  | EmptyString => [EmptyString]
  | String c s' =>
      if Ascii.eqb c sep then EmptyString :: split sep s'
      else match split sep s' with
           | h :: t => String c h :: t
           | [] => [String c EmptyString]
           end
  end.

(** [parts.join(by)]. *)
Fixpoint join (by_ : string) (parts : list string) : string :=
  match parts with
  | [] => EmptyString
  | [p] => p
  | p :: rest => p +:+ by_ +:+ join by_ rest
  end.

(** [s.repeat(n)]. *)
Fixpoint repeat (s : string) (n : nat) : string :=
  match n with
  | O => EmptyString
  | S n' => s +:+ repeat s n'
  end.

(** White space and line terminators of [String.prototype.trim] that are
    code units below 256. *)
Definition isTrimSpace (c : ascii) : bool :=
  match c with
  | "009" | "010" | "011" | "012" | "013" | " " | "160" => true
  | _ => false
  end%char.

Fixpoint trimStart (s : string) : string :=
  match s with
  | EmptyString => EmptyString
  | String c s' => if isTrimSpace c then trimStart s' else s
  end.

(** [trimEnd] drops the longest suffix of white space: a character is kept
    when something that is kept follows it or it is not white space. *)
Fixpoint trimEnd (s : string) : string :=
  match s with
  | EmptyString => EmptyString
  | String c s' =>
      match trimEnd s' with
      | EmptyString => if isTrimSpace c then EmptyString else String c EmptyString
      | t => String c t
      end
  end.

Definition trim (s : string) : string := trimEnd (trimStart s).

(** One pass over [s] that writes [f c] for every code unit [c]. *)
Fixpoint flatMap (f : ascii -> string) (s : string) : string :=
  match s with
  | EmptyString => EmptyString
  | String c s' => f c +:+ flatMap f s'
  end.

(** [replaceAll sep by_ s]: every [sep] becomes [by_], nothing else moves. *)
Definition replaceAll (sep : ascii) (by_ : string) : string -> string :=
  flatMap (fun c => if Ascii.eqb c sep then by_ else String c EmptyString).

(** [s.startsWith(p)]. *)
Fixpoint startsWith (p s : string) : bool :=
  match p with
  | EmptyString => true
  | String a p' =>
      match s with
      | EmptyString => false
      | String b s' => Ascii.eqb a b && startsWith p' s'
      end
  end.

(** Does a code unit occur in a string. *)
Fixpoint occurs (c : ascii) (s : string) : bool :=
  match s with
  | EmptyString => false
  | String d s' => Ascii.eqb d c || occurs c s'
  end.

End Js.

(** ** Encoders (module level functions of the source) *)

Definition INDENT : string := "  ".
Definition BREAK : string := "<br/>".

Definition encodeContent (text : string) : string :=
  Js.join (BREAK +:+ String Js.LF EmptyString)
    (Js.split Js.LF
      (Js.join "&nbsp;"
        (Js.split Js.NBSP
          (Js.join "&gt;"
            (Js.split ">"%char
              (Js.join "&lt;"
                (Js.split "<"%char
                  (Js.join "&amp;" (Js.split "&"%char text))))))))).

Definition encodeAttr (text : string) : string :=
  Js.join "&quot;"
    (Js.split "034"%char
      (Js.join "&gt;"
        (Js.split ">"%char
          (Js.join "&lt;"
            (Js.split "<"%char
              (Js.join "&amp;" (Js.split "&"%char text))))))).

(** ** Plain objects

    A JavaScript object used as a record of string keyed properties is a
    list of its own properties in the order [Object.keys] enumerates them.
    Assignment keeps the place of a property that exists and appends a new
    one.  (Keys that look like array indices, which [Object.keys] would move
    to the front, do not occur among the property names the code writes.) *)

Module Obj.

Definition t (A : Type) : Type := list (string * A).

Definition keys {A} (o : t A) : list string := map fst o.

Fixpoint get {A} (o : t A) (k : string) : option A :=
  match o with
  | [] => None
  | (k', v) :: o' => if String.eqb k' k then Some v else get o' k
  end.

Definition hasOwnProperty {A} (o : t A) (k : string) : bool :=
  match get o k with Some _ => true | None => false end.

Fixpoint set {A} (o : t A) (k : string) (v : A) : t A :=
  match o with
  | [] => [(k, v)]
  | (k', v') :: o' =>
      if String.eqb k' k then (k', v) :: o' else (k', v') :: set o' k v
  end.

(** [Object.assign(target, source)]. *)
Definition assign {A} (target source : t A) : t A :=
  fold_left (fun acc k =>
               match get source k with
               | Some v => set acc k v
               | None => acc
               end) (keys source) target.

End Obj.

(** ** Data model *)

(** A value of Flow type [?string]. *)
Inductive MaybeString : Type :=
| Undefined
| Null
| Str (s : string).

(** [`${v}`] in a template literal. *)
Definition template (v : MaybeString) : string :=
  match v with
  | Undefined => "undefined"
  | Null => "null"
  | Str s => s
  end.

(** [obj[key]] on a [StringMap]: a missing property reads as [undefined]. *)
Definition prop (o : Obj.t MaybeString) (k : string) : MaybeString :=
  match Obj.get o k with Some v => v | None => Undefined end.

(** The double quote, written by its code so that literals stay readable. *)
Definition DQ : string := String "034"%char EmptyString.

(** [INLINE_STYLE] of draft-js-utils. *)
Definition BOLD : string := "BOLD".
Definition CODE : string := "CODE".
Definition ITALIC : string := "ITALIC".
Definition STRIKETHROUGH : string := "STRIKETHROUGH".
Definition UNDERLINE : string := "UNDERLINE".

(** [ENTITY_TYPE] of draft-js-utils. *)
Module ENTITY_TYPE.
Definition LINK : string := "LINK".
Definition IMAGE : string := "IMAGE".
End ENTITY_TYPE.

(** [BLOCK_TYPE] of draft-js-utils.  [block.getType()] is a string that the
    code only ever compares with these constants; [OTHER] stands for every
    other name, which takes the [default] branch of each [switch]. *)
Module BLOCK_TYPE.
Inductive t : Type :=
| UNSTYLED
| HEADER_ONE
| HEADER_TWO
| HEADER_THREE
| HEADER_FOUR
| HEADER_FIVE
| HEADER_SIX
| UNORDERED_LIST_ITEM
| ORDERED_LIST_ITEM
| CHECKABLE_LIST_ITEM
| BLOCKQUOTE
| CODE
| ATOMIC
| OTHER (name : string).

Definition isCODE (b : t) : bool :=
  match b with CODE => true | _ => false end.

Definition isCHECKABLE_LIST_ITEM (b : t) : bool :=
  match b with CHECKABLE_LIST_ITEM => true | _ => false end.
End BLOCK_TYPE.

(** [DraftInlineStyle]: an ordered set of style names, in insertion order. *)
Definition DraftInlineStyle : Type := list string.

Module Style.
Definition has (style : DraftInlineStyle) (name : string) : bool :=
  existsb (String.eqb name) style.

(** [style.get(label)]: the label itself when present. *)
Definition get (style : DraftInlineStyle) (label : string) : option string :=
  if has style label then Some label else None.
End Style.

(** Truthiness of a [?string]-like lookup result. *)
Definition truthy (v : option string) : bool :=
  match v with
  | Some EmptyString => false
  | Some _ => true
  | None => false
  end.

(** [`${w}`] for a [?string] that holds a tag name. *)
Definition tagText (w : option string) : string :=
  match w with Some s => s | None => "null" end.

Record EntityInstance : Type := {
  entityType : string;                 (* getType() *)
  entityData : Obj.t MaybeString       (* getData() *)
}.

Record CharacterMetadata : Type := {
  getStyle : DraftInlineStyle;
  getEntity : option string
}.

Definition CharacterMetaList : Type := list CharacterMetadata.

Record ContentBlock : Type := {
  getKey : string;
  getType : BLOCK_TYPE.t;
  getDepth : nat;
  getText : string;
  getCharacterList : CharacterMetaList
}.

(** What [getEntityRanges] returns: runs by entity, each cut into runs by
    style. *)
Definition StyleRange : Type := (string * DraftInlineStyle)%type.
Definition EntityRange : Type := (option string * list StyleRange)%type.

(** ** Tables *)

Definition ENTITY_ATTR_MAP : Obj.t (Obj.t string) :=
  [ (ENTITY_TYPE.LINK,
      [("url", "href"); ("rel", "rel"); ("target", "target"); ("title", "title")]);
    (ENTITY_TYPE.IMAGE,
      [("src", "src"); ("alt", "alt"); ("data-original-url", "href")]) ].

Definition COLOR_STYLE_MAP : Obj.t (Obj.t string) :=
  [ ("TEXT_DEFAULT", [("color", "#878787")]);
    ("TEXT_WHITE", [("color", "#fff")]);
    ("TEXT_BLACK", [("color", "#000")]);
    ("TEXT_RED", [("color", "rgb(255, 0, 0)")]);
    ("TEXT_ORANGE", [("color", "rgb(255, 127, 0)")]);
    ("TEXT_YELLOW", [("color", "rgb(180, 180, 0)")]);
    ("TEXT_GREEN", [("color", "rgb(0, 180, 0)")]);
    ("TEXT_BLUE", [("color", "rgb(0, 0, 255)")]);
    ("TEXT_INDIGO", [("color", "rgb(75, 0, 130)")]);
    ("TEXT_VIOLET", [("color", "rgb(127, 0, 255)")]);
    ("BACKGROUND_DEFAULT", [("backgroundColor", "#fff")]);
    ("BACKGROUND_BLACK", [("backgroundColor", "#000")]);
    ("BACKGROUND_RED", [("backgroundColor", "rgb(255, 0, 0)")]);
    ("BACKGROUND_ORANGE", [("backgroundColor", "rgb(255, 127, 0)")]);
    ("BACKGROUND_YELLOW", [("backgroundColor", "rgb(180, 180, 0)")]);
    ("BACKGROUND_GREEN", [("backgroundColor", "rgb(0, 180, 0)")]);
    ("BACKGROUND_BLUE", [("backgroundColor", "rgb(0, 0, 255)")]);
    ("BACKGROUND_INDIGO", [("backgroundColor", "rgb(75, 0, 130)")]);
    ("BACKGROUND_VIOLET", [("backgroundColor", "rgb(127, 0, 255)")]) ].

(** ** [dataToAttr] *)

Definition dataToAttr (entityType : string) (entity : EntityInstance)
  : Obj.t MaybeString :=
  let attrMap :=
    if Obj.hasOwnProperty ENTITY_ATTR_MAP entityType
    then match Obj.get ENTITY_ATTR_MAP entityType with
         | Some m => m
         | None => []
         end
    else [] in
  let data := entityData entity in
  fold_left
    (fun attrs dataKey =>
       let dataValue := prop data dataKey in
       if Obj.hasOwnProperty attrMap dataKey
       then match Obj.get attrMap dataKey with
            | Some attrKey => Obj.set attrs attrKey dataValue
            | None => attrs
            end
       else attrs)
    (Obj.keys data) [].

(** ** [decamelize] *)

Definition isUpper (c : ascii) : bool :=
  let n := nat_of_ascii c in (65 <=? n)%nat && (n <=? 90)%nat.

Definition isLowerOrDigit (c : ascii) : bool :=
  let n := nat_of_ascii c in
  ((97 <=? n)%nat && (n <=? 122)%nat) || ((48 <=? n)%nat && (n <=? 57)%nat).

(** [.replace(/([a-z\d])([A-Z])/g, '$1' + sep + '$2')]: [sep] goes between a
    lower case letter or digit and the upper case letter after it.  The
    second character of a match is upper case and so never starts a match
    itself; scanning on from it writes it unchanged. *)
Fixpoint replaceLowerUpper (sep : string) (s : string) : string :=
  match s with
  | EmptyString => EmptyString
  | String c s' =>
      match s' with
      | String d _ =>
          if isLowerOrDigit c && isUpper d
          then String c (sep +:+ replaceLowerUpper sep s')
          else String c (replaceLowerUpper sep s')
      | EmptyString => String c EmptyString
      end
  end.

(** [.replace(/([A-Z]+)([A-Z][a-z\d]+)/g, '$1' + sep + '$2')]: in a run of
    two or more upper case letters that a lower case letter or digit
    follows, [sep] goes before the last upper case letter. *)
Fixpoint replaceUpperRun (sep : string) (s : string) : string :=
  match s with
  | EmptyString => EmptyString
  | String c s' =>
      match s' with
      | String d (String e _) =>
          if isUpper c && isUpper d && isLowerOrDigit e
          then String c (sep +:+ replaceUpperRun sep s')
          else String c (replaceUpperRun sep s')
      | _ => String c (replaceUpperRun sep s')
      end
  end.

Definition toLowerChar (c : ascii) : ascii :=
  let n := nat_of_ascii c in
  if ((65 <=? n)%nat && (n <=? 90)%nat)
     || ((192 <=? n)%nat && (n <=? 222)%nat && negb (n =? 215)%nat)
  then ascii_of_nat (n + 32) else c.

Definition toLowerCase (s : string) : string :=
  Js.flatMap (fun c => String (toLowerChar c) EmptyString) s.

(** The argument is a string by its type, so the [TypeError] guard of the
    source never fires; [sep] is always given and holds no [$]. *)
Definition decamelize (str : string) (sep : string) : string :=
  toLowerCase (replaceUpperRun sep (replaceLowerUpper sep str)).

(** ** [getTags], [getWrapperTag], [canHaveDepth] *)

Definition getTags (blockType : BLOCK_TYPE.t) : list string :=
  match blockType with
  | BLOCK_TYPE.HEADER_ONE => ["h1"]
  | BLOCK_TYPE.HEADER_TWO => ["h2"]
  | BLOCK_TYPE.HEADER_THREE => ["h3"]
  | BLOCK_TYPE.HEADER_FOUR => ["h4"]
  | BLOCK_TYPE.HEADER_FIVE => ["h5"]
  | BLOCK_TYPE.HEADER_SIX => ["h6"]
  | BLOCK_TYPE.UNORDERED_LIST_ITEM
  | BLOCK_TYPE.ORDERED_LIST_ITEM
  | BLOCK_TYPE.CHECKABLE_LIST_ITEM => ["li"]
  | BLOCK_TYPE.BLOCKQUOTE => ["blockquote"]
  | BLOCK_TYPE.CODE => ["pre"; "code"]
  | BLOCK_TYPE.ATOMIC => ["figure"]
  | _ => ["div"]
  end.

Definition getWrapperTag (blockType : BLOCK_TYPE.t) : option string :=
  match blockType with
  | BLOCK_TYPE.UNORDERED_LIST_ITEM
  | BLOCK_TYPE.CHECKABLE_LIST_ITEM => Some "ul"
  | BLOCK_TYPE.ORDERED_LIST_ITEM => Some "ol"
  | _ => None
  end.

Definition canHaveDepth (blockType : BLOCK_TYPE.t) : bool :=
  match blockType with
  | BLOCK_TYPE.UNORDERED_LIST_ITEM
  | BLOCK_TYPE.ORDERED_LIST_ITEM
  | BLOCK_TYPE.CHECKABLE_LIST_ITEM => true
  | _ => false
  end.

(** ** [stringifyAttrs] *)

Definition stringifyAttrs (attrs : option (Obj.t MaybeString)) : string :=
  match attrs with
  | None => EmptyString
  | Some attrs =>
      Js.join EmptyString
        (fold_left
           (fun parts attrKey =>
              match prop attrs attrKey with
              | Str attrValue =>
                  parts ++ [" " +:+ attrKey +:+ "=" +:+ DQ +:+ encodeAttr attrValue +:+ DQ]
              | _ => parts
              end)
           (Obj.keys attrs) [])
  end.

(** ** Outcomes

    A call returns, throws, or (in the model only) runs out of fuel. *)
Inductive Run (A : Type) : Type :=
| Ret (a : A)
| Throw (error : string)
| OutOfFuel.

Arguments Ret {A} a.
Arguments Throw {A} error.
Arguments OutOfFuel {A}.

#[global] Instance Run_ret : MRet Run := fun A a => Ret a.
#[global] Instance Run_bind : MBind Run := fun A B f m =>
  match m with
  | Ret a => f a
  | Throw e => Throw e
  | OutOfFuel => OutOfFuel
  end.

(** ** [MarkupGenerator] *)

(** The fields of the class.  [contentState] is represented by the array
    [getBlocksAsArray()] returns for it. *)
Record MarkupGenerator : Type := {
  contentState : list ContentBlock;
  checkedStateMap : gmap string bool;
  blocks : list ContentBlock;
  currentBlock : nat;
  indentLevel : Z;
  output : list string;
  totalBlocks : nat;
  wrapperTag : option string
}.

Definition with_output (g : MarkupGenerator) (o : list string) : MarkupGenerator :=
  {| contentState := contentState g; checkedStateMap := checkedStateMap g;
     blocks := blocks g; currentBlock := currentBlock g;
     indentLevel := indentLevel g; output := o;
     totalBlocks := totalBlocks g; wrapperTag := wrapperTag g |}.

Definition with_currentBlock (g : MarkupGenerator) (n : nat) : MarkupGenerator :=
  {| contentState := contentState g; checkedStateMap := checkedStateMap g;
     blocks := blocks g; currentBlock := n;
     indentLevel := indentLevel g; output := output g;
     totalBlocks := totalBlocks g; wrapperTag := wrapperTag g |}.

Definition with_indentLevel (g : MarkupGenerator) (n : Z) : MarkupGenerator :=
  {| contentState := contentState g; checkedStateMap := checkedStateMap g;
     blocks := blocks g; currentBlock := currentBlock g;
     indentLevel := n; output := output g;
     totalBlocks := totalBlocks g; wrapperTag := wrapperTag g |}.

Definition with_wrapperTag (g : MarkupGenerator) (w : option string) : MarkupGenerator :=
  {| contentState := contentState g; checkedStateMap := checkedStateMap g;
     blocks := blocks g; currentBlock := currentBlock g;
     indentLevel := indentLevel g; output := output g;
     totalBlocks := totalBlocks g; wrapperTag := w |}.

(** [this.output.push(s)]. *)
Definition push (s : string) (g : MarkupGenerator) : MarkupGenerator :=
  with_output g (output g ++ [s]).

(** [constructor(contentState, checkedStateMap)]: the other fields are not
    set before [generate] runs. *)
Definition new_MarkupGenerator (content : list ContentBlock)
    (checked : gmap string bool) : MarkupGenerator :=
  {| contentState := content; checkedStateMap := checked;
     blocks := []; currentBlock := 0; indentLevel := 0; output := [];
     totalBlocks := 0; wrapperTag := None |}.

(** *** [preserveWhitespace] *)

Definition preserveWhitespace (text : string) : string :=
  let length := String.length text in
  let newText :=
    map (fun i =>
           match String.get i text with
           | Some c =>
               if Ascii.eqb c " "
                  && ((i =? 0)%nat || (i =? length - 1)%nat
                      || match String.get (i - 1) text with
                         | Some p => Ascii.eqb p " "
                         | None => false
                         end)
               then String Js.NBSP EmptyString
               else String c EmptyString
           | None => EmptyString
           end)
        (seq 0 length) in
  Js.join EmptyString newText.

(** *** Writers *)

(** [INDENT.repeat(n)] throws a [RangeError] when [n] is negative. *)
Definition indent (g : MarkupGenerator) : Run MarkupGenerator :=
  if (indentLevel g <? 0)%Z then Throw "RangeError"
  else Ret (push (Js.repeat INDENT (Z.to_nat (indentLevel g))) g).

Definition writeStartTag (blockType : BLOCK_TYPE.t) (g : MarkupGenerator)
  : MarkupGenerator :=
  fold_left (fun g tag => push ("<" +:+ tag +:+ ">") g) (getTags blockType) g.

Definition writeEndTag (blockType : BLOCK_TYPE.t) (g : MarkupGenerator)
  : MarkupGenerator :=
  let tags := getTags blockType in
  match tags with
  | [tag0] => push ("</" +:+ tag0 +:+ ">" +:+ String Js.LF EmptyString) g
  | _ =>
      let out := fold_left (fun out tag => ("</" +:+ tag +:+ ">") :: out) tags [] in
      push (Js.join EmptyString out +:+ String Js.LF EmptyString) g
  end.

Definition openWrapperTag (w : string) (g : MarkupGenerator) : Run MarkupGenerator :=
  let g := with_wrapperTag g (Some w) in
  g ← indent g;
  let g := push ("<" +:+ w +:+ ">" +:+ String Js.LF EmptyString) g in
  Ret (with_indentLevel g (indentLevel g + 1)).

Definition closeWrapperTag (g : MarkupGenerator) : Run MarkupGenerator :=
  if truthy (wrapperTag g) then
    let g := with_indentLevel g (indentLevel g - 1) in
    g ← indent g;
    let g := push ("</" +:+ tagText (wrapperTag g) +:+ ">" +:+ String Js.LF EmptyString) g in
    Ret (with_wrapperTag g None)
  else Ret g.

Definition getNextBlock (g : MarkupGenerator) : option ContentBlock :=
  blocks g !! (currentBlock g + 1)%nat.

(** *** Inline rendering *)

(** The legacy colour labels of a style run, lines 257 to 268 of the
    source: the labels of the table that the style set holds, in table
    order, merged into one [style] attribute. *)
Definition colorSpan (style : DraftInlineStyle) (content : string) : string :=
  let includedLabels :=
    List.filter (fun label => truthy (Style.get style label))
                (Obj.keys COLOR_STYLE_MAP) in
  if (0 <? length includedLabels)%nat then
    let styles :=
      fold_left (fun result label =>
                   match Obj.get COLOR_STYLE_MAP label with
                   | Some css => Obj.assign result css
                   | None => result
                   end) includedLabels [] in
    let stringifyStyles :=
      Js.join " "
        (map (fun p =>
                decamelize p "-" +:+ ": "
                +:+ match Obj.get styles p with
                    | Some v => v
                    | None => "undefined"
                    end +:+ ";")
             (Obj.keys styles)) in
    "<span style=" +:+ DQ +:+ stringifyStyles +:+ DQ +:+ ">" +:+ content +:+ "</span>"
  else content.

(** The checkbox a checkable list item puts before each style run. *)
Definition checkbox (g : MarkupGenerator) (block : ContentBlock) : string :=
  let isChecked := checkedStateMap g !! getKey block in
  "<input type=" +:+ DQ +:+ "checkbox" +:+ DQ +:+ " "
    +:+ (match isChecked with Some true => "checked " | _ => EmptyString end)
    +:+ "/>".

(** The tags of a style run and the checkbox, lines 270 to 291 of the
    source, applied to the content built so far. *)
Definition wrapStyleTags (g : MarkupGenerator) (block : ContentBlock)
    (style : DraftInlineStyle) (content : string) : string :=
  let blockType := getType block in
  let content :=
    if Style.has style BOLD then "<strong>" +:+ content +:+ "</strong>" else content in
  let content :=
    if Style.has style UNDERLINE then "<ins>" +:+ content +:+ "</ins>" else content in
  let content :=
    if Style.has style ITALIC then "<em>" +:+ content +:+ "</em>" else content in
  let content :=
    if Style.has style STRIKETHROUGH then "<del>" +:+ content +:+ "</del>" else content in
  let content :=
    if Style.has style CODE
    then if BLOCK_TYPE.isCODE blockType then content
         else "<code>" +:+ content +:+ "</code>"
    else content in
  let content :=
    if BLOCK_TYPE.isCHECKABLE_LIST_ITEM blockType
    then checkbox g block +:+ content
    else content in
  content.

(** The callback given to [stylePieces.map]. *)
Definition renderStylePiece (g : MarkupGenerator) (block : ContentBlock)
    (piece : StyleRange) : string :=
  let '(text, style) := piece in
  let content := encodeContent text in
  let content := colorSpan style content in
  wrapStyleTags g block style content.

(** *** The variant with numbered legacy styles

    The second source file differs in the table of legacy styles and in how
    a style run collects them; the tags and the checkbox are the same
    lines. *)

Definition OLD_COLORS : list string :=
  [ "rgb(0, 0, 0)"; "rgb(230, 0, 0)"; "rgb(255, 153, 0)"; "rgb(255, 255, 0)";
    "rgb(0, 138, 0)"; "rgb(0, 102, 204)"; "rgb(153, 51, 255)"; "rgb(255, 255, 255)";
    "rgb(250, 204, 204)"; "rgb(255, 235, 204)"; "rgb(255, 255, 204)"; "rgb(204, 232, 204)";
    "rgb(204, 224, 245)"; "rgb(235, 214, 255)"; "rgb(187, 187, 187)"; "rgb(240, 102, 102)";
    "rgb(255, 194, 102)"; "rgb(255, 255, 102)"; "rgb(102, 185, 102)"; "rgb(102, 163, 224)";
    "rgb(194, 133, 255)"; "rgb(136, 136, 136)"; "rgb(161, 0, 0)"; "rgb(178, 107, 0)";
    "rgb(178, 178, 0)"; "rgb(0, 97, 0)"; "rgb(0, 71, 178)"; "rgb(107, 36, 178)";
    "rgb(68, 68, 68)"; "rgb(92, 0, 0)"; "rgb(102, 61, 0)"; "rgb(102, 102, 0)";
    "rgb(0, 55, 0)"; "rgb(0, 41, 102)"; "rgb(61, 20, 10)" ].

(** A CSS value is a string or, for [fontSize], a number; the number is
    kept as its decimal text. *)
Definition OLD_INLINE_STYLES_SIZE : Obj.t (Obj.t string) :=
  [ ("SIZE_NORMAL", [("fontSize", "13")]);
    ("SIZE_SMALLER", [("fontSize", "10")]);
    ("SIZE_LARGER", [("fontSize", "24")]);
    ("SIZE_HUGE", [("fontSize", "32")]) ].

(** [`${i}`] for an array index. *)
Definition indexText (i : nat) : string :=
  DecimalString.NilZero.string_of_uint (Nat.to_uint i).

Definition OLD_INLINE_STYLES : Obj.t (Obj.t string) :=
  fold_left
    (fun result '(i, color) =>
       let result := Obj.set result ("COLOR" +:+ indexText i) [("color", color)] in
       Obj.set result ("BACKGROUND_COLOR" +:+ indexText i)
               [("backgroundColor", color)])
    (imap (fun i color => (i, color)) OLD_COLORS)
    OLD_INLINE_STYLES_SIZE.

(** [keys.indexOf(name) !== -1]. *)
Definition indexOfFound (keys : list string) (name : string) : bool :=
  existsb (String.eqb name) keys.

Definition oldStyleSpan (style : DraftInlineStyle) (content : string) : string :=
  let oldStyles :=
    List.filter (fun name => indexOfFound (Obj.keys OLD_INLINE_STYLES) name) style in
  if (0 <? length oldStyles)%nat then
    let styles :=
      fold_left
        (fun result name =>
           match Obj.get OLD_INLINE_STYLES name with
           | Some css =>
               fold_left (fun r p =>
                            match Obj.get css p with
                            | Some v => Obj.set r p v
                            | None => r
                            end) (Obj.keys css) result
           | None => result
           end) oldStyles [] in
    let stringifyStyles :=
      Js.join " "
        (map (fun p =>
                let v := match Obj.get styles p with
                         | Some v => v
                         | None => "undefined"
                         end in
                let val := if String.eqb p "fontSize" then v +:+ "px" else v in
                decamelize p "-" +:+ ": " +:+ val +:+ ";")
             (Obj.keys styles)) in
    "<span style=" +:+ DQ +:+ stringifyStyles +:+ DQ +:+ ">" +:+ content +:+ "</span>"
  else content.

(** The callback given to [stylePieces.map] in the second source file. *)
Definition renderStylePiece_old (g : MarkupGenerator) (block : ContentBlock)
    (piece : StyleRange) : string :=
  let '(text, style) := piece in
  let content := encodeContent text in
  let content := oldStyleSpan style content in
  wrapStyleTags g block style content.

Section Rendering.

(** The two collaborators the renderer calls: [getEntityRanges] of
    draft-js-utils and the entity registry [Entity.get] of draft-js. *)
Variable getEntityRanges : string -> CharacterMetaList -> list EntityRange.
Variable Entity_get : string -> option EntityInstance.

(** The callback given to [entityPieces.map]. *)
Definition renderEntityPiece (g : MarkupGenerator) (block : ContentBlock)
    (piece : EntityRange) : string :=
  let '(entityKey, stylePieces) := piece in
  let content := Js.join EmptyString (map (renderStylePiece g block) stylePieces) in
  let entity := if truthy entityKey
                then match entityKey with Some k => Entity_get k | None => None end
                else None in
  let entityType := match entity with
                    | None => None
                    | Some e => Some (entityType e)
                    end in
  match entityType, entity with
  | Some ty, Some e =>
      if String.eqb ty ENTITY_TYPE.LINK then
        let attrs := dataToAttr ty e in
        let strAttrs := stringifyAttrs (Some attrs) in
        "<a" +:+ strAttrs +:+ ">" +:+ content +:+ "</a>"
      else if String.eqb ty ENTITY_TYPE.IMAGE then
        let attrs := dataToAttr ty e in
        let strAttrs := stringifyAttrs (Some attrs) in
        "<a href=" +:+ DQ +:+ template (prop attrs "href") +:+ DQ
          +:+ "><img src=" +:+ DQ +:+ template (prop attrs "src") +:+ DQ
          +:+ " alt=" +:+ DQ +:+ template (prop attrs "alt") +:+ DQ +:+ " /></a>"
      else content
  | _, _ => content
  end.

Definition renderBlockContent (g : MarkupGenerator) (block : ContentBlock)
  : string :=
  let text := getText block in
  if String.eqb text EmptyString then BREAK
  else
    let text := preserveWhitespace text in
    let charMetaList := getCharacterList block in
    let entityPieces := getEntityRanges text charMetaList in
    Js.join EmptyString (map (renderEntityPiece g block) entityPieces).

(** *** Traversal *)

(** Lines 155 to 162 of [processBlock]: the change of list container. *)
Definition switchWrapperTag (newWrapperTag : option string) (g : MarkupGenerator)
  : Run MarkupGenerator :=
  if decide (wrapperTag g = newWrapperTag) then Ret g
  else
    g ← (if truthy (wrapperTag g) then closeWrapperTag g else Ret g);
    if truthy newWrapperTag then openWrapperTag (tagText newWrapperTag) g
    else Ret g.

(** [processBlock] and [processBlocksAtDepth] call each other and loop on
    the cursor; the fuel bounds the depth of calls and the loop rounds.
    Reading a method of [blocks[currentBlock]] past the end of the array is
    a [TypeError]. *)
Fixpoint processBlock (fuel : nat) (g : MarkupGenerator) : Run MarkupGenerator :=
  match fuel with
  | O => OutOfFuel
  | S fuel =>
      match blocks g !! currentBlock g with
      | None => Throw "TypeError"
      | Some block =>
          let blockType := getType block in
          let newWrapperTag := getWrapperTag blockType in
          g ← switchWrapperTag newWrapperTag g;
          g ← indent g;
          let g := writeStartTag blockType g in
          let g := push (renderBlockContent g block) g in
          let nextBlock := getNextBlock g in
          match nextBlock with
          | Some nextBlock =>
              if canHaveDepth blockType
                 && (getDepth nextBlock =? getDepth block + 1)%nat
              then
                let g := push (String Js.LF EmptyString) g in
                let thisWrapperTag := wrapperTag g in
                let g := with_wrapperTag g None in
                let g := with_indentLevel g (indentLevel g + 1) in
                let g := with_currentBlock g (currentBlock g + 1) in
                g ← processBlocksAtDepth fuel (getDepth nextBlock) g;
                let g := with_wrapperTag g thisWrapperTag in
                let g := with_indentLevel g (indentLevel g - 1) in
                g ← indent g;
                Ret (writeEndTag blockType g)
              else
                let g := with_currentBlock g (currentBlock g + 1) in
                Ret (writeEndTag blockType g)
          | None =>
              let g := with_currentBlock g (currentBlock g + 1) in
              Ret (writeEndTag blockType g)
          end
      end
  end
with processBlocksAtDepth (fuel : nat) (depth : nat) (g : MarkupGenerator)
  : Run MarkupGenerator :=
  match fuel with
  | O => OutOfFuel
  | S fuel =>
      match blocks g !! currentBlock g with
      | Some block =>
          if (getDepth block =? depth)%nat then
            g ← processBlock fuel g;
            processBlocksAtDepth fuel depth g
          else closeWrapperTag g
      | None => closeWrapperTag g
      end
  end.

(** The [while] loop of [generate]. *)
Fixpoint generate_loop (fuel : nat) (g : MarkupGenerator) : Run MarkupGenerator :=
  match fuel with
  | O => OutOfFuel
  | S fuel =>
      if (currentBlock g <? totalBlocks g)%nat then
        g ← processBlock fuel g;
        generate_loop fuel g
      else Ret g
  end.

(** The state [generate] starts from. *)
Definition generate_init (g : MarkupGenerator) : MarkupGenerator :=
  {| contentState := contentState g; checkedStateMap := checkedStateMap g;
     blocks := contentState g; currentBlock := 0; indentLevel := 0;
     output := []; totalBlocks := length (contentState g);
     wrapperTag := None |}.

(** The state [generate] ends in, before the output is joined.  Two units
    of fuel for each block and one more are enough ([generate_total]). *)
Definition generate_run (g : MarkupGenerator) : Run MarkupGenerator :=
  let g := generate_init g in
  g ← generate_loop (2 * totalBlocks g + 1) g;
  closeWrapperTag g.

Definition generate (g : MarkupGenerator) : Run string :=
  g ← generate_run g;
  Ret (Js.trim (Js.join EmptyString (output g))).

Definition stateToHTML (content : list ContentBlock)
    (checked : gmap string bool) : Run string :=
  generate (new_MarkupGenerator content checked).

End Rendering.

(** ** A run splitter to execute documents with

    [getEntityRanges] belongs to draft-js-utils.  This implementation cuts
    the text into maximal runs of characters with the same entity key and
    each of those into maximal runs with the same style set; a character
    without metadata has no entity and the empty style set. *)

Definition metaAt (metas : CharacterMetaList) (i : nat) : CharacterMetadata :=
  match metas !! i with
  | Some m => m
  | None => {| getStyle := []; getEntity := None |}
  end.

(** Maximal runs of equal keys, in order. *)
Fixpoint runs {K} (eqb : K -> K -> bool) (items : list (ascii * K))
  : list (string * K) :=
  match items with
  | [] => []
  | (c, k) :: rest =>
      match runs eqb rest with
      | (s, k') :: tl =>
          if eqb k k' then (String c s, k) :: tl
          else (String c EmptyString, k) :: (s, k') :: tl
      | [] => [(String c EmptyString, k)]
      end
  end.

Definition entityKey_eqb (a b : option string) : bool := bool_decide (a = b).
Definition style_eqb (a b : DraftInlineStyle) : bool := bool_decide (a = b).

Definition getEntityRanges_runs (text : string) (metas : CharacterMetaList)
  : list EntityRange :=
  let chars := String.list_ascii_of_string text in
  let indexed := imap (fun i c => (c, i)) chars in
  (* entity runs keep the indices of their characters *)
  let byEntity :=
    fold_right
      (fun '(c, i) acc =>
         let k := getEntity (metaAt metas i) in
         match acc with
         | (k', cs) :: tl =>
             if entityKey_eqb k k' then (k, (c, i) :: cs) :: tl
             else (k, [(c, i)]) :: acc
         | [] => [(k, [(c, i)])]
         end)
      [] indexed in
  map (fun '(k, cs) =>
         (k, runs style_eqb (map (fun '(c, i) => (c, getStyle (metaAt metas i))) cs)))
      byEntity.

Definition getEntityRanges_model (text : string) (metas : CharacterMetaList)
  : list EntityRange :=
  match text with
  | EmptyString => [(None, [(EmptyString, [])])]
  | _ => getEntityRanges_runs text metas
  end.

Definition noEntities : string -> option EntityInstance := fun _ => None.

Definition plainBlock (key : string) (ty : BLOCK_TYPE.t) (depth : nat)
    (text : string) : ContentBlock :=
  {| getKey := key; getType := ty; getDepth := depth; getText := text;
     getCharacterList := [] |}.

(** A generator and a block to run single pieces with. *)
Definition sampleGenerator : MarkupGenerator := new_MarkupGenerator [] ∅.
Definition sampleBlock : ContentBlock := plainBlock "k" BLOCK_TYPE.UNSTYLED 0 "x".

(** A document with styled runs, a link, a code block with a line break,
    a checked item and an empty ordered item two levels deep. *)
Definition charMeta (style : DraftInlineStyle) (entity : option string)
  : CharacterMetadata :=
  {| getStyle := style; getEntity := entity |}.

Definition mixedDocument : list ContentBlock :=
  [ {| getKey := "k"; getType := BLOCK_TYPE.UNSTYLED; getDepth := 0;
       getText := "Hi  there & <x>";
       getCharacterList :=
         [ charMeta [BOLD] None; charMeta [BOLD] None; charMeta [] None;
           charMeta [] None; charMeta [] (Some "1");
           charMeta [ITALIC] (Some "1"); charMeta [ITALIC] (Some "1");
           charMeta [] (Some "1"); charMeta [] (Some "1") ] |};
    plainBlock "c" BLOCK_TYPE.CODE 0 ("x" +:+ String Js.LF "y");
    plainBlock "item" BLOCK_TYPE.CHECKABLE_LIST_ITEM 0 "do";
    plainBlock "z" BLOCK_TYPE.ORDERED_LIST_ITEM 2 EmptyString ].

(** A text with an ampersand and a newline. *)
Definition ampersandNewline : string := String "&" (String Js.LF EmptyString).

(** ** Notions the statements use *)

(** What [encodeContent] writes for one code unit. *)
Definition contentEntity (c : ascii) : string :=
  if Ascii.eqb c "&" then "&amp;"
  else if Ascii.eqb c "<" then "&lt;"
  else if Ascii.eqb c ">" then "&gt;"
  else if Ascii.eqb c Js.NBSP then "&nbsp;"
  else if Ascii.eqb c Js.LF then BREAK +:+ String Js.LF EmptyString
  else String c EmptyString.

(** What [encodeAttr] writes for one code unit. *)
Definition attrEntity (c : ascii) : string :=
  if Ascii.eqb c "&" then "&amp;"
  else if Ascii.eqb c "<" then "&lt;"
  else if Ascii.eqb c ">" then "&gt;"
  else if Ascii.eqb c "034" then "&quot;"
  else String c EmptyString.

(** Decoding of the named entities [&amp;], [&lt;], [&gt;] and [&nbsp;]:
    the reader of the markup, not part of the exporter.  [skip] counts the
    code units of an entity that are still to be dropped. *)
Fixpoint decodeFrom (skip : nat) (s : string) : string :=
  match s with
  | EmptyString => EmptyString
  | String c s' =>
      match skip with
      | S k => decodeFrom k s'
      | O =>
          if Js.startsWith "&amp;" s then String "&" (decodeFrom 4 s')
          else if Js.startsWith "&lt;" s then String "<" (decodeFrom 3 s')
          else if Js.startsWith "&gt;" s then String ">" (decodeFrom 3 s')
          else if Js.startsWith "&nbsp;" s then String Js.NBSP (decodeFrom 5 s')
          else String c (decodeFrom 0 s')
      end
  end.

Definition decodeEntities (s : string) : string := decodeFrom 0 s.

(** The code unit [preserveWhitespace] writes at index [i] for [c]. *)
Definition preservedAt (text : string) (i : nat) (c : ascii) : ascii :=
  if Ascii.eqb c " "
     && ((i =? 0)%nat || (i =? String.length text - 1)%nat
         || match String.get (i - 1) text with
            | Some p => Ascii.eqb p " "
            | None => false
            end)
  then Js.NBSP else c.

(** The spaces HTML would collapse: the one at index [i] opens the text,
    closes it, or follows another space. *)
Definition collapsible (text : string) (i : nat) : Prop :=
  String.get i text = Some " "%char
  /\ (i = 0%nat \/ i = (String.length text - 1)%nat
      \/ exists j, i = S j /\ String.get j text = Some " "%char).

(** The style tags in nesting order, outermost first, each with the style
    that switches it on. *)
Definition STYLE_TAGS : list (string * string) :=
  [ ("code", CODE); ("del", STRIKETHROUGH); ("em", ITALIC);
    ("ins", UNDERLINE); ("strong", BOLD) ].

(** The tags a style run is wrapped in, outermost first. *)
Definition styleTags (blockType : BLOCK_TYPE.t) (style : DraftInlineStyle)
  : list string :=
  map fst
    (List.filter
       (fun '(tag, name) =>
          Style.has style name
          && negb (String.eqb tag "code" && BLOCK_TYPE.isCODE blockType))
       STYLE_TAGS).

Definition openTags (tags : list string) : string :=
  Js.join EmptyString (map (fun tag => "<" +:+ tag +:+ ">") tags).

Definition closeTags (tags : list string) : string :=
  Js.join EmptyString (map (fun tag => "</" +:+ tag +:+ ">") (rev tags)).

(** The loop of [dataToAttr] for a given field table. *)
Definition mapFields (attrMap : Obj.t string) (data : Obj.t MaybeString)
  : Obj.t MaybeString :=
  fold_left
    (fun attrs dataKey =>
       let dataValue := prop data dataKey in
       if Obj.hasOwnProperty attrMap dataKey
       then match Obj.get attrMap dataKey with
            | Some attrKey => Obj.set attrs attrKey dataValue
            | None => attrs
            end
       else attrs)
    (Obj.keys data) [].

Definition LINK_FIELDS : Obj.t string :=
  [("url", "href"); ("rel", "rel"); ("target", "target"); ("title", "title")].

Definition IMAGE_FIELDS : Obj.t string :=
  [("src", "src"); ("alt", "alt"); ("data-original-url", "href")].

(** One round of the loop, on an entry. *)
Definition mapField (attrMap : Obj.t string) (attrs : Obj.t MaybeString)
    (kv : string * MaybeString) : Obj.t MaybeString :=
  match Obj.get attrMap (fst kv) with
  | Some attrKey => Obj.set attrs attrKey (snd kv)
  | None => attrs
  end.

(** No two fields of a table stand for the same attribute. *)
Definition injectiveTable (attrMap : Obj.t string) : Prop :=
  forall k1 k2 a, Obj.get attrMap k1 = Some a -> Obj.get attrMap k2 = Some a -> k1 = k2.

(** What the table makes of an entry. *)
Definition renameField (attrMap : Obj.t string) (kv : string * MaybeString)
  : option (string * MaybeString) :=
  match Obj.get attrMap (fst kv) with
  | Some attrKey => Some (attrKey, snd kv)
  | None => None
  end.

(** What [stringifyAttrs] writes for one attribute. *)
Definition attrText (kv : string * MaybeString) : string :=
  match snd kv with
  | Str value => " " +:+ fst kv +:+ "=" +:+ DQ +:+ encodeAttr value +:+ DQ
  | _ => EmptyString
  end.

(** The attribute a field of a LINK entity stands for in the anchor tag:
    nothing unless the field is in the table and holds a string. *)
Definition linkAttribute (field : string * MaybeString) : string :=
  match Obj.get LINK_FIELDS (fst field), snd field with
  | Some name, Str value => " " +:+ name +:+ "=" +:+ DQ +:+ encodeAttr value +:+ DQ
  | _, _ => EmptyString
  end.

(** Reading the output as a sequence of list container events. *)
Inductive WrapperEvent : Type :=
| Opens (w : string)
| Closes (w : string).

Definition wrapperEvent (fragment : string) : option WrapperEvent :=
  if String.eqb fragment ("<ul>" +:+ String Js.LF EmptyString) then Some (Opens "ul")
  else if String.eqb fragment ("<ol>" +:+ String Js.LF EmptyString) then Some (Opens "ol")
  else if String.eqb fragment ("</ul>" +:+ String Js.LF EmptyString) then Some (Closes "ul")
  else if String.eqb fragment ("</ol>" +:+ String Js.LF EmptyString) then Some (Closes "ol")
  else None.

(** [scanWrappers stack out]: the containers still open after [out], read
    from a state with [stack] open (innermost first); [None] when a closing
    tag does not match the innermost open container. *)
Fixpoint scanWrappers (stack : list string) (out : list string)
  : option (list string) :=
  match out with
  | [] => Some stack
  | fragment :: out' =>
      match wrapperEvent fragment with
      | Some (Opens w) => scanWrappers (w :: stack) out'
      | Some (Closes w) =>
          match stack with
          | top :: stack' =>
              if String.eqb top w then scanWrappers stack' out' else None
          | [] => None
          end
      | None => scanWrappers stack out'
      end
  end.

(** The open container of a generator state, as a stack. *)
Definition openWrappers (w : option string) : list string :=
  match w with Some t => [t] | None => [] end.

(** [hay.includes(needle)]. *)
Fixpoint includes (needle hay : string) : bool :=
  Js.startsWith needle hay
  || match hay with
     | EmptyString => false
     | String _ hay' => includes needle hay'
     end.

(** Entities to run single pieces with: a link whose [rel] is null, and an
    image whose [alt] holds a double quote and which has no [src]. *)
Definition linkEntity : EntityInstance :=
  {| entityType := ENTITY_TYPE.LINK;
     entityData := [("url", Str "https://x"); ("rel", Null)] |}.

Definition imageEntity : EntityInstance :=
  {| entityType := ENTITY_TYPE.IMAGE;
     entityData := [("alt", Str ("a" +:+ DQ +:+ "b")); ("data-original-url", Str "h")] |}.

Definition titledLinkEntity : EntityInstance :=
  {| entityType := ENTITY_TYPE.LINK;
     entityData := [("title", Str ("a" +:+ DQ +:+ "b"))] |}.

Definition sampleEntities (key : string) : option EntityInstance :=
  if String.eqb key "1" then Some linkEntity
  else if String.eqb key "2" then Some imageEntity
  else if String.eqb key "3" then Some titledLinkEntity
  else None.

(** A paragraph whose only character carries the image entity. *)
Definition imageDocument : list ContentBlock :=
  [ {| getKey := "k"; getType := BLOCK_TYPE.UNSTYLED; getDepth := 0;
       getText := "x"; getCharacterList := [ charMeta [] (Some "2") ] |} ].

Definition checkedItem : ContentBlock :=
  {| getKey := "item"; getType := BLOCK_TYPE.CHECKABLE_LIST_ITEM; getDepth := 0;
     getText := EmptyString;
     getCharacterList := [ {| getStyle := [BOLD]; getEntity := Some "1" |} ] |}.

(** ** Invariants of the traversal *)

(** The open container is absent or one of the two the code knows. *)
Definition wrapperNamed (w : option string) : Prop :=
  w = None \/ w = Some "ul" \/ w = Some "ol".

(** The indent level outside the open container. *)
Definition baseIndent (g : MarkupGenerator) : Z :=
  (indentLevel g - match wrapperTag g with Some _ => 1 | None => 0 end)%Z.

(** The fields [generate] sets once stay as they are. *)
Definition sameDocument (g g' : MarkupGenerator) : Prop :=
  blocks g' = blocks g /\ totalBlocks g' = totalBlocks g
  /\ checkedStateMap g' = checkedStateMap g /\ contentState g' = contentState g.

(** [g'] comes from [g] by writing fragments that leave the containers
    balanced: read from the containers open in [g], over any enclosing
    ones, they end with the containers open in [g']. *)
Definition Steps (g g' : MarkupGenerator) : Prop :=
  sameDocument g g'
  /\ baseIndent g' = baseIndent g
  /\ exists delta,
       output g' = output g ++ delta
       /\ forall enclosing,
            scanWrappers (openWrappers (wrapperTag g) ++ enclosing) delta
            = Some (openWrappers (wrapperTag g') ++ enclosing).

(** A fragment that cannot be mistaken for a tag the traversal writes: it
    is empty, or does not start with [<], or starts one of the inline tags
    (br, span, strong, ins, input, em, del, code, a). *)
Definition safeStart (s : string) : bool :=
  match s with
  | EmptyString => true
  | String c rest =>
      if Ascii.eqb c "<" then
        match rest with
        | String d _ => existsb (Ascii.eqb d) ["b"; "s"; "i"; "e"; "d"; "c"; "a"]%char
        | EmptyString => false
        end
      else true
  end.

(** What closing the open container and opening a new one write. *)
Definition closingFragments (g : MarkupGenerator) : list string :=
  match wrapperTag g with
  | Some w => [ Js.repeat INDENT (Z.to_nat (indentLevel g - 1));
                "</" +:+ w +:+ ">" +:+ String Js.LF EmptyString ]
  | None => []
  end.

Definition openingFragments (g : MarkupGenerator) (newWrapperTag : option string)
  : list string :=
  match newWrapperTag with
  | Some w => [ Js.repeat INDENT (Z.to_nat (baseIndent g));
                "<" +:+ w +:+ ">" +:+ String Js.LF EmptyString ]
  | None => []
  end.

(** [g'] comes from [g] by writes that touch neither the cursor, nor the
    open container, nor the indent level. *)
Definition Quiet (g g' : MarkupGenerator) : Prop :=
  Steps g g' /\ currentBlock g' = currentBlock g
  /\ wrapperTag g' = wrapperTag g /\ indentLevel g' = indentLevel g.

(** A document with a nested list, and a state of the traversal at the
    third block of a list followed by a paragraph. *)
Definition nestedListDocument : list ContentBlock :=
  [ plainBlock "a" BLOCK_TYPE.UNORDERED_LIST_ITEM 0 "one";
    plainBlock "b" BLOCK_TYPE.UNORDERED_LIST_ITEM 1 "two";
    plainBlock "c" BLOCK_TYPE.UNORDERED_LIST_ITEM 0 "three" ].

Definition listThenOrdered : MarkupGenerator :=
  {| contentState := []; checkedStateMap := ∅;
     blocks := [ plainBlock "a" BLOCK_TYPE.UNORDERED_LIST_ITEM 0 "one";
                 plainBlock "b" BLOCK_TYPE.ORDERED_LIST_ITEM 0 "two" ];
     currentBlock := 1; indentLevel := 1;
     output := [ EmptyString; "<ul>" +:+ String Js.LF EmptyString;
                 "  "; "<li>"; "one"; "</li>" +:+ String Js.LF EmptyString ];
     totalBlocks := 2; wrapperTag := Some "ul" |}.

(** ** Further notions *)

(** [p] holds of every code unit of [s]. *)
Fixpoint everyChar (p : ascii -> bool) (s : string) : bool :=
  match s with
  | EmptyString => true
  | String c s' => p c && everyChar p s'
  end.

(** Decoding of the entities [encodeAttr] writes: [&amp;], [&lt;], [&gt;]
    and [&quot;]; the reader of an attribute value, not part of the
    exporter. *)
Fixpoint decodeAttrFrom (skip : nat) (s : string) : string :=
  match s with
  | EmptyString => EmptyString
  | String c s' =>
      match skip with
      | S k => decodeAttrFrom k s'
      | O =>
          if Js.startsWith "&amp;" s then String "&" (decodeAttrFrom 4 s')
          else if Js.startsWith "&lt;" s then String "<" (decodeAttrFrom 3 s')
          else if Js.startsWith "&gt;" s then String ">" (decodeAttrFrom 3 s')
          else if Js.startsWith "&quot;" s then String "034" (decodeAttrFrom 5 s')
          else String c (decodeAttrFrom 0 s')
      end
  end.

Definition decodeAttrEntities (s : string) : string := decodeAttrFrom 0 s.

(** A code unit that [toLowerCase] leaves as it is. *)
Definition isLowered (c : ascii) : bool := Ascii.eqb (toLowerChar c) c.

(** The fragments [processBlock] writes for a block that nests no list, at
    a given indent level and with a given content: the indentation, the
    start tags, the content and the end tags. *)
Definition blockFragments (level : Z) (content : string)
    (blockType : BLOCK_TYPE.t) : list string :=
  Js.repeat INDENT (Z.to_nat level)
  :: map (fun tag => "<" +:+ tag +:+ ">") (getTags blockType)
  ++ [content; closeTags (getTags blockType) +:+ String Js.LF EmptyString].

(** The test of the look ahead in [processBlock]: the block is a list item
    and the next block is one level deeper. *)
Definition nests (block nextBlock : ContentBlock) : bool :=
  canHaveDepth (getType block)
  && (getDepth nextBlock =? getDepth block + 1)%nat.

(** No block of the sequence starts a nested list. *)
Fixpoint noNesting (blocks : list ContentBlock) : bool :=
  match blocks with
  | block :: rest =>
      match rest with
      | nextBlock :: _ => negb (nests block nextBlock)
      | [] => true
      end && noNesting rest
  | [] => true
  end.

(** The indent level inside a container, counted from the level outside. *)
Definition wrapperLevel (w : option string) : Z :=
  match w with Some _ => 1%Z | None => 0%Z end.

(** A document of three paragraphs and a flat list of three items. *)
Definition plainDocument : list ContentBlock :=
  [ plainBlock "a" BLOCK_TYPE.HEADER_ONE 0 "title";
    plainBlock "b" BLOCK_TYPE.UNSTYLED 3 "text";
    plainBlock "c" BLOCK_TYPE.CODE 4 EmptyString ].

Definition flatListDocument : list ContentBlock :=
  [ plainBlock "a" BLOCK_TYPE.UNORDERED_LIST_ITEM 0 "one";
    plainBlock "b" BLOCK_TYPE.CHECKABLE_LIST_ITEM 0 "two";
    plainBlock "c" BLOCK_TYPE.UNORDERED_LIST_ITEM 2 "three" ].

(** *** [writeStartTag] of the second source file

    The block types of alignment are not among [BLOCK_TYPE]; they are names
    under [OTHER]. *)
Module OLD_BLOCK_TYPES.
Definition ALIGN_CENTER : string := "align-center".
Definition ALIGN_RIGHT : string := "align-right".
Definition ALIGN_JUSTIFY : string := "align-justify".
End OLD_BLOCK_TYPES.

(** [blockType === name] for a name that is none of the [BLOCK_TYPE]
    constants. *)
Definition isNamed (blockType : BLOCK_TYPE.t) (name : string) : bool :=
  match blockType with
  | BLOCK_TYPE.OTHER n => String.eqb n name
  | _ => false
  end.

Definition writeStartTag_old (blockType : BLOCK_TYPE.t) (g : MarkupGenerator)
  : MarkupGenerator :=
  fold_left
    (fun g tag =>
       if isNamed blockType OLD_BLOCK_TYPES.ALIGN_RIGHT then
         push ("<" +:+ tag +:+ " style=" +:+ DQ +:+ "text-align: right;" +:+ DQ +:+ ">") g
       else if isNamed blockType OLD_BLOCK_TYPES.ALIGN_CENTER then
         push ("<" +:+ tag +:+ " style=" +:+ DQ +:+ "text-align: center;" +:+ DQ +:+ ">") g
       else if isNamed blockType OLD_BLOCK_TYPES.ALIGN_JUSTIFY then
         push ("<" +:+ tag +:+ " style=" +:+ DQ +:+ "text-align: justify;" +:+ DQ +:+ ">") g
       else push ("<" +:+ tag +:+ ">") g)
    (getTags blockType) g.

(** The alignment a block type of the second source file stands for. *)
Definition alignment (blockType : BLOCK_TYPE.t) : option string :=
  if isNamed blockType OLD_BLOCK_TYPES.ALIGN_RIGHT then Some "right"
  else if isNamed blockType OLD_BLOCK_TYPES.ALIGN_CENTER then Some "center"
  else if isNamed blockType OLD_BLOCK_TYPES.ALIGN_JUSTIFY then Some "justify"
  else None.

(** * Proofs *)

(** * Facts about the string helpers *)

Lemma append_nil_r (s : string) : s +:+ EmptyString = s.
Proof. induction s as [|c s IH]; simpl; [done | by rewrite IH]. Qed.

Lemma append_assoc (a b c : string) : (a +:+ b) +:+ c = a +:+ (b +:+ c).
Proof. induction a as [|x a IH]; simpl; [done | by rewrite IH]. Qed.

(** Appends are brought to the right-nested form and computed. *)
Ltac string_assoc := repeat (first [rewrite !append_assoc | progress simpl]).

Lemma split_cons (sep : ascii) (s : string) :
  exists h t, Js.split sep s = h :: t.
Proof.
  induction s as [|c s [h [t IH]]]; simpl; [by eauto |].
  destruct (Ascii.eqb c sep); [by eauto |]. rewrite IH. eauto.
Qed.

Lemma join_cons_char (by_ : string) (c : ascii) (h : string) (t : list string) :
  Js.join by_ (String c h :: t) = String c (Js.join by_ (h :: t)).
Proof. by destruct t. Qed.

Lemma join_cons_empty (by_ : string) (h : string) (t : list string) :
  Js.join by_ (EmptyString :: h :: t) = by_ +:+ Js.join by_ (h :: t).
Proof. done. Qed.

(** [s.split(sep).join(by)] replaces every [sep] by [by]. *)
Lemma split_join (sep : ascii) (by_ : string) (s : string) :
  Js.join by_ (Js.split sep s) = Js.replaceAll sep by_ s.
Proof.
  unfold Js.replaceAll.
  induction s as [|c s IH]; simpl; [done |].
  destruct (split_cons sep s) as [h [t Hs]]. rewrite Hs in IH |- *.
  destruct (Ascii.eqb c sep).
  - by rewrite join_cons_empty, IH.
  - by rewrite join_cons_char, IH.
Qed.

Lemma flatMap_app (f : ascii -> string) (a b : string) :
  Js.flatMap f (a +:+ b) = Js.flatMap f a +:+ Js.flatMap f b.
Proof.
  induction a as [|c a IH]; simpl; [done |]. by rewrite IH, append_assoc.
Qed.

Lemma flatMap_flatMap (f g : ascii -> string) (s : string) :
  Js.flatMap g (Js.flatMap f s) = Js.flatMap (fun c => Js.flatMap g (f c)) s.
Proof.
  induction s as [|c s IH]; simpl; [done |]. by rewrite flatMap_app, IH.
Qed.

Lemma flatMap_ext (f g : ascii -> string) (s : string) :
  (forall c, f c = g c) -> Js.flatMap f s = Js.flatMap g s.
Proof. intros E. induction s as [|c s IH]; simpl; [done |]. by rewrite E, IH. Qed.

Lemma flatMap_singleton (s : string) :
  Js.flatMap (fun c => String c EmptyString) s = s.
Proof. induction s as [|c s IH]; simpl; [done | by rewrite IH]. Qed.

(** The five replacements of [encodeContent] amount to one pass. *)
Lemma encodeContent_flatMap (text : string) :
  encodeContent text = Js.flatMap contentEntity text.
Proof.
  unfold encodeContent. rewrite !split_join. unfold Js.replaceAll.
  rewrite !flatMap_flatMap. apply flatMap_ext.
  intros [[] [] [] [] [] [] [] []]; reflexivity.
Qed.

Lemma encodeAttr_flatMap (text : string) :
  encodeAttr text = Js.flatMap attrEntity text.
Proof.
  unfold encodeAttr. rewrite !split_join. unfold Js.replaceAll.
  rewrite !flatMap_flatMap. apply flatMap_ext.
  intros [[] [] [] [] [] [] [] []]; reflexivity.
Qed.

Lemma decodeFrom_contentEntity (c : ascii) (rest : string) :
  decodeFrom 0 (contentEntity c +:+ rest)
  = (if Ascii.eqb c Js.LF then BREAK +:+ String Js.LF EmptyString
     else String c EmptyString) +:+ decodeFrom 0 rest.
Proof.
  destruct c as [[] [] [] [] [] [] [] []]; reflexivity.
Qed.

Lemma decode_encodeContent (text : string) :
  decodeEntities (encodeContent text)
  = Js.replaceAll Js.LF (BREAK +:+ String Js.LF EmptyString) text.
Proof.
  rewrite encodeContent_flatMap. unfold decodeEntities, Js.replaceAll.
  induction text as [|c text IH]; [done |].
  cbn [Js.flatMap]. by rewrite decodeFrom_contentEntity, IH.
Qed.

Lemma replaceAll_absent (sep : ascii) (by_ : string) (s : string) :
  Js.occurs sep s = false -> Js.replaceAll sep by_ s = s.
Proof.
  unfold Js.replaceAll. induction s as [|c s IH]; simpl; [done |].
  intros H. apply orb_false_iff in H as [Hc Hs].
  rewrite Hc. simpl. by rewrite IH.
Qed.

(** * [preserveWhitespace], one code unit at a time *)

Lemma join_empty_cons (p : string) (l : list string) :
  Js.join EmptyString (p :: l) = p +:+ Js.join EmptyString l.
Proof. destruct l; simpl; [by rewrite append_nil_r | done]. Qed.

Lemma join_empty_app (l1 l2 : list string) :
  Js.join EmptyString (l1 ++ l2)
  = Js.join EmptyString l1 +:+ Js.join EmptyString l2.
Proof.
  induction l1 as [|p l1 IH]; [done |].
  rewrite <- app_comm_cons, !join_empty_cons, IH. by rewrite append_assoc.
Qed.

Lemma join_singletons {A} (h : A -> ascii) (l : list A) :
  Js.join EmptyString (map (fun i => String (h i) EmptyString) l)
  = String.string_of_list_ascii (map h l).
Proof.
  induction l as [|x l IH]; [done |].
  rewrite map_cons, join_empty_cons, IH. done.
Qed.

Lemma get_string_of_list (l : list ascii) (i : nat) :
  String.get i (String.string_of_list_ascii l) = l !! i.
Proof.
  revert i. induction l as [|c l IH]; intros [|i]; simpl; by try done.
Qed.

Lemma get_Some_lt (s : string) (i : nat) (c : ascii) :
  String.get i s = Some c -> (i < String.length s)%nat.
Proof.
  revert i. induction s as [|d s IH]; intros [|i]; simpl; try done; [lia |].
  intros H. apply IH in H. lia.
Qed.

Lemma get_lt_Some (s : string) (i : nat) :
  (i < String.length s)%nat -> exists c, String.get i s = Some c.
Proof.
  revert i. induction s as [|d s IH]; intros [|i]; simpl; try lia; [by eauto |].
  intros H. apply IH. lia.
Qed.

Lemma length_string_of_list (l : list ascii) :
  String.length (String.string_of_list_ascii l) = length l.
Proof. induction l as [|c l IH]; simpl; [done | by rewrite IH]. Qed.

(** The loop of [preserveWhitespace] as one list of code units. *)
Lemma preserveWhitespace_chars (text : string) :
  preserveWhitespace text
  = String.string_of_list_ascii
      (map (fun i => match String.get i text with
                     | Some c => preservedAt text i c
                     | None => " "%char
                     end)
           (seq 0 (String.length text))).
Proof.
  unfold preserveWhitespace. rewrite <- join_singletons. f_equal.
  apply map_ext_in. intros i Hi. apply in_seq in Hi.
  destruct (get_lt_Some text i) as [c Hc]; [lia |].
  rewrite Hc. unfold preservedAt.
  by destruct (_ && _).
Qed.

Lemma preserveWhitespace_length (text : string) :
  String.length (preserveWhitespace text) = String.length text.
Proof.
  rewrite preserveWhitespace_chars, length_string_of_list.
  by rewrite length_map, length_seq.
Qed.

Lemma preserveWhitespace_get (text : string) (i : nat) (c : ascii) :
  String.get i text = Some c ->
  String.get i (preserveWhitespace text) = Some (preservedAt text i c).
Proof.
  intros Hc. pose proof (get_Some_lt _ _ _ Hc) as Hlt.
  rewrite preserveWhitespace_chars, get_string_of_list.
  rewrite list_lookup_fmap, lookup_seq_lt by done. simpl. by rewrite Hc.
Qed.

Lemma occurs_string_of_list (c : ascii) (l : list ascii) :
  Js.occurs c (String.string_of_list_ascii l) = existsb (fun d => Ascii.eqb d c) l.
Proof. induction l as [|d l IH]; simpl; [done | by rewrite IH]. Qed.

Lemma occurs_get (c : ascii) (s : string) (i : nat) :
  Js.occurs c s = false -> String.get i s = Some c -> False.
Proof.
  revert i. induction s as [|d s IH]; intros [|i]; simpl; try done.
  - intros H [= ->]. by rewrite Ascii.eqb_refl in H.
  - intros H. apply orb_false_iff in H as [_ H]. by apply IH.
Qed.

(** The pass brings in no code unit other than U+00A0. *)
Lemma preserveWhitespace_occurs (c : ascii) (text : string) :
  c <> Js.NBSP ->
  Js.occurs c text = false -> Js.occurs c (preserveWhitespace text) = false.
Proof.
  intros Hc Hocc. rewrite preserveWhitespace_chars, occurs_string_of_list.
  apply not_true_is_false. intros H. apply existsb_exists in H as [d [Hin Hd]].
  apply in_map_iff in Hin as [i [Hi Hin]]. apply in_seq in Hin.
  apply Ascii.eqb_eq in Hd. rewrite Hd in Hi. clear Hd.
  destruct (String.get i text) as [x|] eqn:Hx.
  - unfold preservedAt in Hi. destruct (_ && _); [congruence |].
    subst x. by eapply occurs_get.
  - destruct (get_lt_Some text i) as [y Hy]; [lia | congruence].
Qed.

(** * Style runs *)

Lemma has_true (style : DraftInlineStyle) (name : string) :
  Style.has style name = true <-> In name style.
Proof.
  unfold Style.has. rewrite existsb_exists. split.
  - intros [x [Hin Hx]]. apply String.eqb_eq in Hx. by subst.
  - intros Hin. exists name. split; [done | apply String.eqb_refl].
Qed.

Lemma has_ext (s1 s2 : DraftInlineStyle) :
  (forall name, In name s1 <-> In name s2) ->
  forall name, Style.has s1 name = Style.has s2 name.
Proof.
  intros E name. apply eq_true_iff_eq. by rewrite !has_true.
Qed.

Lemma filter_ext_bool {A} (f g : A -> bool) (l : list A) :
  (forall x, f x = g x) -> List.filter f l = List.filter g l.
Proof. intros E. induction l as [|x l IH]; simpl; [done | by rewrite E, IH]. Qed.

Lemma colorSpan_ext (s1 s2 : DraftInlineStyle) (content : string) :
  (forall name, Style.has s1 name = Style.has s2 name) ->
  colorSpan s1 content = colorSpan s2 content.
Proof.
  intros E. unfold colorSpan.
  rewrite (filter_ext_bool (fun label => truthy (Style.get s1 label))
                           (fun label => truthy (Style.get s2 label))).
  - done.
  - intros x. unfold Style.get. by rewrite E.
Qed.

Lemma wrapStyleTags_ext g block (s1 s2 : DraftInlineStyle) (content : string) :
  (forall name, Style.has s1 name = Style.has s2 name) ->
  wrapStyleTags g block s1 content = wrapStyleTags g block s2 content.
Proof. intros E. unfold wrapStyleTags. by rewrite !E. Qed.

(** The tags around the content, read off the table [STYLE_TAGS]. *)
Lemma wrapStyleTags_nesting g block (style : DraftInlineStyle) (content : string) :
  wrapStyleTags g block style content
  = (if BLOCK_TYPE.isCHECKABLE_LIST_ITEM (getType block)
     then checkbox g block else EmptyString)
    +:+ openTags (styleTags (getType block) style)
    +:+ content
    +:+ closeTags (styleTags (getType block) style).
Proof.
  unfold wrapStyleTags, styleTags, STYLE_TAGS, openTags, closeTags.
  cbn [List.filter].
  destruct (Style.has style BOLD), (Style.has style UNDERLINE),
    (Style.has style ITALIC), (Style.has style STRIKETHROUGH),
    (Style.has style CODE), (BLOCK_TYPE.isCODE (getType block)),
    (BLOCK_TYPE.isCHECKABLE_LIST_ITEM (getType block));
    cbn; rewrite ?append_assoc, ?append_nil_r; cbn; reflexivity.
Qed.

(** A style set without numbered legacy styles gets no span in the second
    source file. *)
Lemma oldStyleSpan_plain (style : DraftInlineStyle) (content : string) :
  (forall name, In name style ->
     indexOfFound (Obj.keys OLD_INLINE_STYLES) name = false) ->
  oldStyleSpan style content = content.
Proof.
  intros H. unfold oldStyleSpan.
  assert (E : List.filter
                (fun name => indexOfFound (Obj.keys OLD_INLINE_STYLES) name) style
              = []).
  { induction style as [|x style IH]; [done |]. cbn [List.filter].
    rewrite (H x) by (by left). apply IH. intros name Hin. apply H. by right. }
  by rewrite E.
Qed.

(** * Objects *)

Lemma get_In {A} (o : Obj.t A) (k : string) (v : A) :
  Obj.get o k = Some v -> In (k, v) o.
Proof.
  induction o as [|[k' v'] o IH]; simpl; [done |].
  destruct (String.eqb_spec k' k) as [-> | _].
  - intros [= ->]. by left.
  - intros H. right. by apply IH.
Qed.

Lemma get_None_keys {A} (o : Obj.t A) (k : string) :
  Obj.get o k = None <-> ~ In k (Obj.keys o).
Proof.
  induction o as [|[k' v'] o IH]; simpl; [tauto |].
  destruct (String.eqb_spec k' k) as [-> | Hne].
  - split; [done | intros H; exfalso; apply H; by left].
  - rewrite IH. tauto.
Qed.

Lemma get_NoDup {A} (o : Obj.t A) (k : string) (v : A) :
  List.NoDup (Obj.keys o) -> In (k, v) o -> Obj.get o k = Some v.
Proof.
  induction o as [|[k' v'] o IH]; simpl; [done |].
  intros Hnd Hin. apply List.NoDup_cons_iff in Hnd as [Hfresh Hnd].
  destruct Hin as [[= -> ->] | Hin].
  - by rewrite String.eqb_refl.
  - destruct (String.eqb_spec k' k) as [-> | _]; [| by apply IH].
    exfalso. apply Hfresh. change k with (fst (k, v)). by apply in_map.
Qed.

Lemma set_fresh {A} (o : Obj.t A) (k : string) (v : A) :
  ~ In k (Obj.keys o) -> Obj.set o k v = o ++ [(k, v)].
Proof.
  induction o as [|[k' v'] o IH]; simpl; [done |].
  intros Hfresh. destruct (String.eqb_spec k' k) as [-> | _].
  - exfalso. apply Hfresh. by left.
  - rewrite IH; [done | tauto].
Qed.

Lemma keys_set {A} (o : Obj.t A) (k : string) (v : A) (x : string) :
  In x (Obj.keys (Obj.set o k v)) <-> In x (Obj.keys o) \/ x = k.
Proof.
  induction o as [|[k' v'] o IH]; simpl; [intuition |].
  destruct (String.eqb_spec k' k) as [-> | _]; simpl; [intuition |].
  rewrite IH. tauto.
Qed.

Lemma fold_left_pointwise {A B} (f g : A -> B -> A) (l : list B) (a : A) :
  (forall a b, f a b = g a b) -> fold_left f l a = fold_left g l a.
Proof.
  intros E. revert a. induction l as [|b l IH]; intros a; simpl; [done |].
  by rewrite E, IH.
Qed.

(** A loop over [Object.keys(o)] that reads [o[key]] sees the entries of
    [o] one by one. *)
Lemma fold_keys_entries {A B} (step : B -> string -> option A -> B)
    (o : Obj.t A) (acc : B) :
  List.NoDup (Obj.keys o) ->
  fold_left (fun acc k => step acc k (Obj.get o k)) (Obj.keys o) acc
  = fold_left (fun acc kv => step acc (fst kv) (Some (snd kv))) o acc.
Proof.
  intros Hnd.
  assert (H : forall l, (forall kv, In kv l -> In kv o) -> forall acc,
             fold_left (fun acc k => step acc k (Obj.get o k)) (Obj.keys l) acc
             = fold_left (fun acc kv => step acc (fst kv) (Some (snd kv))) l acc).
  { induction l as [|[k v] l IH]; intros Hsub acc0; [done |].
    simpl. rewrite (get_NoDup o k v Hnd); [| apply Hsub; by left].
    apply IH. intros kv Hin. apply Hsub. by right. }
  by apply H.
Qed.

(** * [dataToAttr] *)

Lemma dataToAttr_LINK (e : EntityInstance) :
  dataToAttr ENTITY_TYPE.LINK e = mapFields LINK_FIELDS (entityData e).
Proof. reflexivity. Qed.

Lemma dataToAttr_IMAGE (e : EntityInstance) :
  dataToAttr ENTITY_TYPE.IMAGE e = mapFields IMAGE_FIELDS (entityData e).
Proof. reflexivity. Qed.

Lemma mapFields_entries (attrMap : Obj.t string) (data : Obj.t MaybeString) :
  List.NoDup (Obj.keys data) ->
  mapFields attrMap data = fold_left (mapField attrMap) data [].
Proof.
  intros Hnd. unfold mapFields, prop.
  rewrite (fold_keys_entries
             (fun attrs k (v : option MaybeString) =>
                if Obj.hasOwnProperty attrMap k
                then match Obj.get attrMap k with
                     | Some attrKey =>
                         Obj.set attrs attrKey
                           (match v with Some x => x | None => Undefined end)
                     | None => attrs
                     end
                else attrs) data [] Hnd).
  apply fold_left_pointwise. intros attrs [k v]. unfold mapField, Obj.hasOwnProperty.
  simpl. by destruct (Obj.get attrMap k).
Qed.

(** Every attribute comes from a field of the data that the table maps. *)
Lemma mapFields_keys (attrMap : Obj.t string) (data : Obj.t MaybeString)
    (a : string) :
  In a (Obj.keys (mapFields attrMap data)) ->
  exists k, In k (Obj.keys data) /\ Obj.get attrMap k = Some a.
Proof.
  unfold mapFields.
  assert (H : forall l acc,
    In a (Obj.keys (fold_left
       (fun attrs dataKey =>
          let dataValue := prop data dataKey in
          if Obj.hasOwnProperty attrMap dataKey
          then match Obj.get attrMap dataKey with
               | Some attrKey => Obj.set attrs attrKey dataValue
               | None => attrs
               end
          else attrs) l acc)) ->
    In a (Obj.keys acc) \/ exists k, In k l /\ Obj.get attrMap k = Some a).
  { induction l as [|k l IH]; intros acc Hin; [by left |].
    simpl in Hin. apply IH in Hin as [Hin | [k' [Hk' Hget]]].
    - unfold Obj.hasOwnProperty in Hin.
      destruct (Obj.get attrMap k) as [attrKey|] eqn:Hk; [| by left].
      apply keys_set in Hin as [Hin | ->]; [by left |].
      right. exists k. split; [by left | done].
    - right. exists k'. split; [by right | done]. }
  intros Hin. apply H in Hin as [[] | Hin]. done.
Qed.

Lemma LINK_FIELDS_injective : injectiveTable LINK_FIELDS.
Proof.
  intros k1 k2 a H1 H2. apply get_In in H1, H2. simpl in H1, H2.
  intuition congruence.
Qed.

Lemma keys_app {A} (o1 o2 : Obj.t A) :
  Obj.keys (o1 ++ o2) = Obj.keys o1 ++ Obj.keys o2.
Proof. unfold Obj.keys. apply map_app. Qed.

Lemma fold_mapField (attrMap : Obj.t string) (data acc : Obj.t MaybeString) :
  List.NoDup (Obj.keys acc ++ Obj.keys (omap (renameField attrMap) data)) ->
  fold_left (mapField attrMap) data acc = acc ++ omap (renameField attrMap) data.
Proof.
  revert acc. induction data as [|[k v] data IH]; intros acc Hnd; simpl.
  { by rewrite app_nil_r. }
  unfold mapField at 2. unfold renameField at 1. simpl.
  simpl in Hnd. unfold renameField at 1 in Hnd. simpl in Hnd.
  destruct (Obj.get attrMap k) as [a|] eqn:Hk.
  - simpl in Hnd.
    assert (Hfresh : ~ In a (Obj.keys acc)).
    { intros Hin. apply List.NoDup_remove_2 in Hnd. apply Hnd.
      apply in_or_app. by left. }
    rewrite set_fresh by done. rewrite IH.
    + by rewrite <- app_assoc.
    + rewrite keys_app, <- app_assoc. done.
  - by apply IH.
Qed.

Lemma renameField_keys_NoDup (attrMap : Obj.t string) (data : Obj.t MaybeString) :
  injectiveTable attrMap ->
  List.NoDup (Obj.keys data) ->
  List.NoDup (Obj.keys (omap (renameField attrMap) data)).
Proof.
  intros Hinj. induction data as [|[k v] data IH]; simpl; [constructor |].
  intros Hnd. apply List.NoDup_cons_iff in Hnd as [Hfresh Hnd].
  unfold renameField at 1. simpl.
  destruct (Obj.get attrMap k) as [a|] eqn:Hk; [| by apply IH].
  simpl. constructor; [| by apply IH].
  intros Hin. apply Hfresh.
  unfold Obj.keys in Hin. apply in_map_iff in Hin as [[a' v'] [Ha Hin]].
  simpl in Ha. subst a'.
  apply list_elem_of_In, list_elem_of_omap in Hin as [[k' v''] [Hin Hren]].
  unfold renameField in Hren. simpl in Hren.
  destruct (Obj.get attrMap k') as [a'|] eqn:Hk'; [| done].
  injection Hren as -> ->.
  rewrite (Hinj k k' a Hk Hk').
  apply list_elem_of_In in Hin. change k' with (fst (k', v')). by apply in_map.
Qed.

Lemma mapFields_omap (attrMap : Obj.t string) (data : Obj.t MaybeString) :
  injectiveTable attrMap ->
  List.NoDup (Obj.keys data) ->
  mapFields attrMap data = omap (renameField attrMap) data.
Proof.
  intros Hinj Hnd. rewrite mapFields_entries by done.
  rewrite fold_mapField; [done |]. simpl. by apply renameField_keys_NoDup.
Qed.

(** * [stringifyAttrs] *)

Lemma stringifyAttrs_entries (attrs : Obj.t MaybeString) :
  List.NoDup (Obj.keys attrs) ->
  stringifyAttrs (Some attrs) = Js.join EmptyString (map attrText attrs).
Proof.
  intros Hnd. unfold stringifyAttrs, prop.
  rewrite (fold_keys_entries
             (fun parts k (v : option MaybeString) =>
                match match v with Some x => x | None => Undefined end with
                | Str attrValue =>
                    parts ++ [" " +:+ k +:+ "=" +:+ DQ +:+ encodeAttr attrValue +:+ DQ]
                | _ => parts
                end) attrs [] Hnd).
  assert (H : forall l acc,
    Js.join EmptyString
      (fold_left (fun parts (kv : string * MaybeString) =>
                    match snd kv with
                    | Str attrValue =>
                        parts ++ [" " +:+ fst kv +:+ "=" +:+ DQ
                                  +:+ encodeAttr attrValue +:+ DQ]
                    | _ => parts
                    end) l acc)
    = Js.join EmptyString acc +:+ Js.join EmptyString (map attrText l)).
  { induction l as [|[k v] l IH]; intros acc; simpl fold_left.
    - simpl. by rewrite append_nil_r.
    - rewrite IH, map_cons, join_empty_cons. unfold attrText at 2. simpl.
      destruct v; simpl; try done.
      rewrite join_empty_app. by string_assoc. }
  rewrite H. done.
Qed.

Lemma attrText_renameField (data : Obj.t MaybeString) :
  Js.join EmptyString (map attrText (omap (renameField LINK_FIELDS) data))
  = Js.join EmptyString (map linkAttribute data).
Proof.
  induction data as [|[k v] data IH]; [done |].
  simpl omap. rewrite map_cons, join_empty_cons, <- IH.
  unfold renameField at 1, linkAttribute. simpl fst. simpl snd.
  destruct (Obj.get LINK_FIELDS k) as [a|].
  - rewrite map_cons, join_empty_cons. unfold attrText at 1. simpl.
    by destruct v.
  - done.
Qed.

(** The attribute list of an anchor, field by field. *)
Lemma stringifyAttrs_LINK (e : EntityInstance) :
  List.NoDup (Obj.keys (entityData e)) ->
  stringifyAttrs (Some (dataToAttr ENTITY_TYPE.LINK e))
  = Js.join EmptyString (map linkAttribute (entityData e)).
Proof.
  intros Hnd. rewrite dataToAttr_LINK.
  rewrite mapFields_omap by (done || apply LINK_FIELDS_injective).
  rewrite stringifyAttrs_entries.
  - apply attrText_renameField.
  - apply renameField_keys_NoDup; [apply LINK_FIELDS_injective | done].
Qed.

(** * Fragments that are not container tags *)

Lemma safeStart_app (a b : string) :
  safeStart a = true -> safeStart b = true -> safeStart (a +:+ b) = true.
Proof.
  destruct a as [|c [|d a]]; simpl; try done.
  by destruct (Ascii.eqb c "<").
Qed.

Lemma safeStart_join (l : list string) :
  Forall (fun s => safeStart s = true) l -> safeStart (Js.join EmptyString l) = true.
Proof.
  induction 1 as [|s l Hs _ IH]; [done |].
  rewrite join_empty_cons. by apply safeStart_app.
Qed.

Lemma safeStart_encodeContent (text : string) :
  safeStart (encodeContent text) = true.
Proof.
  rewrite encodeContent_flatMap. destruct text as [|c text]; [done |].
  cbn [Js.flatMap]. generalize (Js.flatMap contentEntity text). intros rest.
  destruct c as [[] [] [] [] [] [] [] []]; reflexivity.
Qed.

Lemma safeStart_colorSpan (style : DraftInlineStyle) (content : string) :
  safeStart content = true -> safeStart (colorSpan style content) = true.
Proof. intros H. unfold colorSpan. by destruct (_ <? _)%nat. Qed.

Lemma safeStart_wrapStyleTags g block (style : DraftInlineStyle) (content : string) :
  safeStart content = true -> safeStart (wrapStyleTags g block style content) = true.
Proof.
  intros H. unfold wrapStyleTags.
  destruct (Style.has style BOLD), (Style.has style UNDERLINE),
    (Style.has style ITALIC), (Style.has style STRIKETHROUGH),
    (Style.has style CODE), (BLOCK_TYPE.isCODE (getType block)),
    (BLOCK_TYPE.isCHECKABLE_LIST_ITEM (getType block));
    first [exact H | reflexivity].
Qed.

Lemma safeStart_renderStylePiece g block (piece : StyleRange) :
  safeStart (renderStylePiece g block piece) = true.
Proof.
  destruct piece as [text style]. unfold renderStylePiece.
  apply safeStart_wrapStyleTags, safeStart_colorSpan, safeStart_encodeContent.
Qed.

Lemma safeStart_renderEntityPiece
    (Entity_get : string -> option EntityInstance) g block (piece : EntityRange) :
  safeStart (renderEntityPiece Entity_get g block piece) = true.
Proof.
  destruct piece as [entityKey pieces]. unfold renderEntityPiece.
  assert (Hc : safeStart (Js.join EmptyString (map (renderStylePiece g block) pieces))
               = true).
  { apply safeStart_join, Forall_forall. intros s Hin.
    apply list_elem_of_In, in_map_iff in Hin as [p [<- _]].
    apply safeStart_renderStylePiece. }
  destruct (if truthy entityKey then _ else _) as [e|]; [| exact Hc].
  destruct (String.eqb _ ENTITY_TYPE.LINK); [reflexivity |].
  destruct (String.eqb _ ENTITY_TYPE.IMAGE); [reflexivity | exact Hc].
Qed.

Lemma safeStart_renderBlockContent
    (getEntityRanges : string -> CharacterMetaList -> list EntityRange)
    (Entity_get : string -> option EntityInstance) g block :
  safeStart (renderBlockContent getEntityRanges Entity_get g block) = true.
Proof.
  unfold renderBlockContent. destruct (String.eqb _ _); [reflexivity |].
  apply safeStart_join, Forall_forall. intros s Hin.
  apply list_elem_of_In, in_map_iff in Hin as [p [<- _]].
  apply safeStart_renderEntityPiece.
Qed.

Lemma wrapperEvent_safeStart (s : string) :
  safeStart s = true -> wrapperEvent s = None.
Proof.
  intros H. unfold wrapperEvent.
  destruct (String.eqb_spec s ("<ul>" +:+ String Js.LF EmptyString)) as [-> | _];
    [discriminate H |].
  destruct (String.eqb_spec s ("<ol>" +:+ String Js.LF EmptyString)) as [-> | _];
    [discriminate H |].
  destruct (String.eqb_spec s ("</ul>" +:+ String Js.LF EmptyString)) as [-> | _];
    [discriminate H |].
  destruct (String.eqb_spec s ("</ol>" +:+ String Js.LF EmptyString)) as [-> | _];
    [discriminate H |].
  done.
Qed.

Lemma wrapperEvent_indent (n : nat) : wrapperEvent (Js.repeat INDENT n) = None.
Proof. by destruct n. Qed.

Lemma wrapperEvent_startTag (blockType : BLOCK_TYPE.t) (tag : string) :
  In tag (getTags blockType) -> wrapperEvent ("<" +:+ tag +:+ ">") = None.
Proof.
  destruct blockType; simpl; intros H;
    repeat (destruct H as [<- | H]; [reflexivity |]); done.
Qed.

(** * Scanning *)

Lemma scanWrappers_app (stack : list string) (a b : list string) :
  scanWrappers stack (a ++ b)
  = match scanWrappers stack a with
    | Some stack' => scanWrappers stack' b
    | None => None
    end.
Proof.
  revert stack. induction a as [|f a IH]; intros stack; simpl; [done |].
  destruct (wrapperEvent f) as [[w | w] |]; [apply IH | | apply IH].
  destruct stack as [|top stack]; [done |].
  destruct (String.eqb top w); [apply IH | done].
Qed.

Lemma scanWrappers_quiet (stack : list string) (l : list string) :
  Forall (fun s => wrapperEvent s = None) l -> scanWrappers stack l = Some stack.
Proof. induction 1 as [|s l Hs _ IH]; simpl; [done | by rewrite Hs]. Qed.

(** * The traversal *)

Ltac fields :=
  cbn [contentState checkedStateMap blocks currentBlock indentLevel output
       totalBlocks wrapperTag push with_output with_currentBlock
       with_indentLevel with_wrapperTag] in *.

Lemma bind_Ret {A B} (a : A) (f : A -> Run B) : (Ret a ≫= f) = f a.
Proof. reflexivity. Qed.

Lemma sameDocument_refl g : sameDocument g g.
Proof. by repeat split. Qed.

Lemma sameDocument_trans g1 g2 g3 :
  sameDocument g1 g2 -> sameDocument g2 g3 -> sameDocument g1 g3.
Proof.
  intros (?&?&?&?) (?&?&?&?). repeat split; congruence.
Qed.

Lemma Steps_refl g : Steps g g.
Proof.
  split; [apply sameDocument_refl |]. split; [done |].
  exists []. split; [by rewrite app_nil_r | done].
Qed.

Lemma Steps_trans g1 g2 g3 : Steps g1 g2 -> Steps g2 g3 -> Steps g1 g3.
Proof.
  intros (D1 & B1 & d1 & O1 & S1) (D2 & B2 & d2 & O2 & S2).
  split; [by eapply sameDocument_trans |]. split; [congruence |].
  exists (d1 ++ d2). split.
  - by rewrite O2, O1, app_assoc.
  - intros T. by rewrite scanWrappers_app, S1, S2.
Qed.

Lemma Quiet_refl g : Quiet g g.
Proof. split; [apply Steps_refl | done]. Qed.

Lemma Quiet_trans g1 g2 g3 : Quiet g1 g2 -> Quiet g2 g3 -> Quiet g1 g3.
Proof.
  intros (S1 & ? & ? & ?) (S2 & ? & ? & ?).
  split; [by eapply Steps_trans |]. repeat split; congruence.
Qed.

Lemma Quiet_push (s : string) g : wrapperEvent s = None -> Quiet g (push s g).
Proof.
  intros Hs. split; [| done].
  split; [by repeat split |]. split; [done |].
  exists [s]. split; [done |]. intros T. simpl. by rewrite Hs.
Qed.

Lemma Steps_with_currentBlock g (n : nat) : Steps g (with_currentBlock g n).
Proof.
  split; [by repeat split |]. split; [done |].
  exists []. split; [fields; by rewrite app_nil_r | done].
Qed.

Lemma indent_Ret g :
  (0 <= indentLevel g)%Z ->
  indent g = Ret (push (Js.repeat INDENT (Z.to_nat (indentLevel g))) g).
Proof.
  intros H. unfold indent. destruct (Z.ltb_spec (indentLevel g) 0); [lia | done].
Qed.

Lemma Quiet_indent g :
  (0 <= indentLevel g)%Z -> exists g', indent g = Ret g' /\ Quiet g g'.
Proof.
  intros H. rewrite indent_Ret by done. eexists. split; [done |].
  apply Quiet_push, wrapperEvent_indent.
Qed.

Lemma Quiet_writeStartTag (blockType : BLOCK_TYPE.t) g :
  Quiet g (writeStartTag blockType g).
Proof.
  unfold writeStartTag.
  assert (H : forall tags g0,
             (forall tag, In tag tags -> wrapperEvent ("<" +:+ tag +:+ ">") = None) ->
             Quiet g0 (fold_left (fun g tag => push ("<" +:+ tag +:+ ">") g) tags g0)).
  { induction tags as [|tag tags IH]; intros g0 Hq; [apply Quiet_refl |].
    simpl fold_left. eapply Quiet_trans.
    - apply Quiet_push, Hq. by left.
    - apply IH. intros t Ht. apply Hq. by right. }
  apply H. intros tag. apply wrapperEvent_startTag.
Qed.

Lemma Quiet_writeEndTag (blockType : BLOCK_TYPE.t) g :
  Quiet g (writeEndTag blockType g).
Proof.
  destruct blockType; apply Quiet_push; reflexivity.
Qed.

Lemma closeWrapperTag_ok g :
  wrapperNamed (wrapperTag g) -> (0 <= baseIndent g)%Z ->
  exists g', closeWrapperTag g = Ret g' /\ Steps g g'
             /\ wrapperTag g' = None /\ currentBlock g' = currentBlock g
             /\ output g' = output g ++ closingFragments g.
Proof.
  intros Hw Hb. unfold closeWrapperTag, closingFragments, baseIndent in *.
  destruct Hw as [Hw | [Hw | Hw]]; rewrite Hw in *; cbn [truthy].
  - exists g. split; [done |]. split; [apply Steps_refl |].
    by rewrite app_nil_r.
  - rewrite indent_Ret by (fields; lia). rewrite bind_Ret. fields.
    eexists. split; [done |]. fields. rewrite Hw.
    split; [| by rewrite <- app_assoc].
    split; [by repeat split |]. unfold baseIndent. fields. rewrite Hw.
    split; [lia |].
    eexists. split; [by rewrite <- app_assoc |].
    intros T. cbn [app scanWrappers]. by rewrite wrapperEvent_indent.
  - rewrite indent_Ret by (fields; lia). rewrite bind_Ret. fields.
    eexists. split; [done |]. fields. rewrite Hw.
    split; [| by rewrite <- app_assoc].
    split; [by repeat split |]. unfold baseIndent. fields. rewrite Hw.
    split; [lia |].
    eexists. split; [by rewrite <- app_assoc |].
    intros T. cbn [app scanWrappers]. by rewrite wrapperEvent_indent.
Qed.

Lemma openWrapperTag_ok (w : string) g :
  wrapperTag g = None -> w = "ul" \/ w = "ol" -> (0 <= indentLevel g)%Z ->
  exists g', openWrapperTag w g = Ret g' /\ Steps g g'
             /\ wrapperTag g' = Some w /\ currentBlock g' = currentBlock g
             /\ output g' = output g ++ openingFragments g (Some w).
Proof.
  intros Hw Hname Hb. unfold openWrapperTag, openingFragments, baseIndent.
  rewrite indent_Ret by (fields; lia). rewrite bind_Ret. fields.
  eexists. split; [done |]. fields. rewrite Hw, Z.sub_0_r.
  split; [| by rewrite <- app_assoc].
  split; [by repeat split |]. unfold baseIndent. fields. rewrite Hw.
  split; [lia |].
  eexists. split; [by rewrite <- app_assoc |].
  intros T. cbn [app scanWrappers]. rewrite wrapperEvent_indent.
  by destruct Hname as [-> | ->].
Qed.

Lemma truthy_named (w : option string) :
  wrapperNamed w -> truthy w = match w with Some _ => true | None => false end.
Proof. by intros [-> | [-> | ->]]. Qed.

Lemma switchWrapperTag_ok (newWrapperTag : option string) g :
  wrapperNamed (wrapperTag g) -> wrapperNamed newWrapperTag ->
  (0 <= baseIndent g)%Z ->
  exists g', switchWrapperTag newWrapperTag g = Ret g' /\ Steps g g'
             /\ wrapperTag g' = newWrapperTag
             /\ currentBlock g' = currentBlock g
             /\ output g'
                = output g
                  ++ (if decide (wrapperTag g = newWrapperTag) then []
                      else closingFragments g ++ openingFragments g newWrapperTag).
Proof.
  intros Hw Hnew Hb. unfold switchWrapperTag.
  destruct (decide (wrapperTag g = newWrapperTag)) as [E | NE].
  { exists g. split; [done |]. split; [apply Steps_refl |].
    by rewrite app_nil_r. }
  assert (Hclose : exists g1,
             (if truthy (wrapperTag g) then closeWrapperTag g else Ret g) = Ret g1
             /\ Steps g g1 /\ wrapperTag g1 = None
             /\ currentBlock g1 = currentBlock g
             /\ output g1 = output g ++ closingFragments g
             /\ indentLevel g1 = baseIndent g).
  { rewrite truthy_named by done.
    destruct (wrapperTag g) as [w|] eqn:Ew.
    - destruct (closeWrapperTag_ok g) as (g1 & E1 & S1 & W1 & C1 & O1);
        [by rewrite Ew | done |].
      exists g1. do 5 (split; [done |]).
      destruct S1 as (_ & B1 & _). unfold baseIndent in B1 |- *.
      rewrite W1, Ew in B1. rewrite Ew. lia.
    - exists g. split; [done |]. split; [apply Steps_refl |].
      unfold closingFragments, baseIndent. rewrite Ew.
      rewrite app_nil_r. do 3 (split; [done |]). lia. }
  destruct Hclose as (g1 & E1 & S1 & W1 & C1 & O1 & L1).
  rewrite E1, bind_Ret. rewrite truthy_named by done.
  destruct newWrapperTag as [w|].
  - destruct (openWrapperTag_ok w g1) as (g2 & E2 & S2 & W2 & C2 & O2);
      [done | | lia |].
    { destruct Hnew as [? | [[= ->] | [= ->]]]; [done | by left | by right]. }
    exists g2. cbn [tagText]. split; [done |].
    split; [by eapply Steps_trans |]. split; [done |]. split; [congruence |].
    rewrite O2, O1, <- app_assoc. do 2 f_equal.
    unfold openingFragments, baseIndent. rewrite W1, L1.
    unfold baseIndent. by rewrite Z.sub_0_r.
  - exists g1. split; [done |]. split; [done |]. split; [done |].
    split; [done |]. rewrite O1. unfold openingFragments. by rewrite app_nil_r.
Qed.

Lemma getWrapperTag_named (blockType : BLOCK_TYPE.t) :
  wrapperNamed (getWrapperTag blockType).
Proof. unfold wrapperNamed. destruct blockType; simpl; auto. Qed.

Lemma canHaveDepth_wrapper (blockType : BLOCK_TYPE.t) :
  canHaveDepth blockType = true -> exists w, getWrapperTag blockType = Some w.
Proof. destruct blockType; simpl; try done; eauto. Qed.

Lemma Quiet_Steps g g' : Quiet g g' -> Steps g g'.
Proof. by intros [? _]. Qed.

Lemma Steps_output g g' : Steps g g' -> exists rest, output g' = output g ++ rest.
Proof. intros (_ & _ & delta & O & _). eauto. Qed.

Lemma Steps_blocks g g' : Steps g g' -> blocks g' = blocks g.
Proof. by intros ((? & _) & _). Qed.

Lemma Steps_totalBlocks g g' : Steps g g' -> totalBlocks g' = totalBlocks g.
Proof. by intros ((_ & ? & _) & _). Qed.

Lemma Steps_baseIndent g g' : Steps g g' -> baseIndent g' = baseIndent g.
Proof. by intros (_ & ? & _). Qed.

Lemma indentLevel_baseIndent g :
  (0 <= baseIndent g)%Z -> (0 <= indentLevel g)%Z.
Proof. unfold baseIndent. destruct (wrapperTag g); lia. Qed.

(** The end of [processBlock] when no list is nested. *)
Lemma advance_ok (blockType : BLOCK_TYPE.t) g :
  let g' := writeEndTag blockType (with_currentBlock g (currentBlock g + 1)) in
  Steps g g' /\ wrapperTag g' = wrapperTag g
  /\ currentBlock g' = (currentBlock g + 1)%nat.
Proof.
  intros g'. subst g'.
  destruct (Quiet_writeEndTag blockType (with_currentBlock g (currentBlock g + 1)))
    as (S & C & W & _).
  split; [| by split].
  eapply Steps_trans; [apply Steps_with_currentBlock | exact S].
Qed.

Section Traversal.

Variable getEntityRanges : string -> CharacterMetaList -> list EntityRange.
Variable Entity_get : string -> option EntityInstance.

Local Abbreviation processBlock' := (processBlock getEntityRanges Entity_get).
Local Abbreviation processBlocksAtDepth' :=
  (processBlocksAtDepth getEntityRanges Entity_get).
Local Abbreviation renderBlockContent' :=
  (renderBlockContent getEntityRanges Entity_get).

(** The equations of the two functions. *)
Lemma processBlock_S (fuel : nat) g :
  processBlock' (S fuel) g
  = match blocks g !! currentBlock g with
    | None => Throw "TypeError"
    | Some block =>
        let blockType := getType block in
        let newWrapperTag := getWrapperTag blockType in
        g ← switchWrapperTag newWrapperTag g;
        g ← indent g;
        let g := writeStartTag blockType g in
        let g := push (renderBlockContent' g block) g in
        let nextBlock := getNextBlock g in
        match nextBlock with
        | Some nextBlock =>
            if canHaveDepth blockType
               && (getDepth nextBlock =? getDepth block + 1)%nat
            then
              let g := push (String Js.LF EmptyString) g in
              let thisWrapperTag := wrapperTag g in
              let g := with_wrapperTag g None in
              let g := with_indentLevel g (indentLevel g + 1) in
              let g := with_currentBlock g (currentBlock g + 1) in
              g ← processBlocksAtDepth' fuel (getDepth nextBlock) g;
              let g := with_wrapperTag g thisWrapperTag in
              let g := with_indentLevel g (indentLevel g - 1) in
              g ← indent g;
              Ret (writeEndTag blockType g)
            else
              let g := with_currentBlock g (currentBlock g + 1) in
              Ret (writeEndTag blockType g)
        | None =>
            let g := with_currentBlock g (currentBlock g + 1) in
            Ret (writeEndTag blockType g)
        end
    end.
Proof. reflexivity. Qed.

Lemma processBlocksAtDepth_S (fuel : nat) (depth : nat) g :
  processBlocksAtDepth' (S fuel) depth g
  = match blocks g !! currentBlock g with
    | Some block =>
        if (getDepth block =? depth)%nat then
          g ← processBlock' fuel g;
          processBlocksAtDepth' fuel depth g
        else closeWrapperTag g
    | None => closeWrapperTag g
    end.
Proof. reflexivity. Qed.

(** The writes of [processBlock] between the change of container and the
    look ahead. *)
Lemma opening_ok (block : ContentBlock) g :
  (0 <= indentLevel g)%Z ->
  exists g2, indent g = Ret g2
    /\ Quiet g (push (renderBlockContent' (writeStartTag (getType block) g2) block)
                     (writeStartTag (getType block) g2)).
Proof.
  intros Hl. destruct (Quiet_indent g Hl) as (g2 & E2 & Q2).
  exists g2. split; [done |].
  eapply Quiet_trans; [exact Q2 |].
  eapply Quiet_trans; [apply Quiet_writeStartTag |].
  apply Quiet_push, wrapperEvent_safeStart, safeStart_renderBlockContent.
Qed.

(** With two units of fuel for each block left, [processBlock] returns,
    moves the cursor on, leaves the container of its block open and keeps
    the containers balanced; [processBlocksAtDepth], with one unit more,
    returns with no container open. *)
Lemma traversal_ok (fuel : nat) :
  (forall g block,
      blocks g !! currentBlock g = Some block ->
      wrapperNamed (wrapperTag g) -> (0 <= baseIndent g)%Z ->
      (2 * (length (blocks g) - currentBlock g) <= fuel)%nat ->
      exists g', processBlock' fuel g = Ret g' /\ Steps g g'
        /\ wrapperTag g' = getWrapperTag (getType block)
        /\ (currentBlock g < currentBlock g' <= length (blocks g))%nat
        /\ exists rest,
             output g'
             = output g
               ++ (if decide (wrapperTag g = getWrapperTag (getType block)) then []
                   else closingFragments g
                        ++ openingFragments g (getWrapperTag (getType block)))
               ++ rest)
  /\ (forall depth g,
        wrapperNamed (wrapperTag g) -> (0 <= baseIndent g)%Z ->
        (currentBlock g <= length (blocks g))%nat ->
        (2 * (length (blocks g) - currentBlock g) + 1 <= fuel)%nat ->
        exists g', processBlocksAtDepth' fuel depth g = Ret g' /\ Steps g g'
          /\ wrapperTag g' = None
          /\ (currentBlock g <= currentBlock g' <= length (blocks g))%nat).
Proof.
  induction fuel as [|fuel [IHB IHD]].
  { split.
    - intros g block Hblock _ _ Hfuel. apply lookup_lt_Some in Hblock. lia.
    - intros depth g _ _ _ Hfuel. lia. }
  split.
  - intros g block Hblock Hw Hb Hfuel.
    pose proof (lookup_lt_Some _ _ _ Hblock) as Hlt.
    rewrite processBlock_S, Hblock. cbv zeta.
    destruct (switchWrapperTag_ok (getWrapperTag (getType block)) g Hw
                (getWrapperTag_named _) Hb) as (g1 & E1 & S1 & W1 & C1 & O1).
    rewrite E1, bind_Ret.
    assert (Hb1 : (0 <= baseIndent g1)%Z) by (by rewrite (Steps_baseIndent _ _ S1)).
    destruct (opening_ok block g1 (indentLevel_baseIndent _ Hb1)) as (g2 & E2 & Q4).
    rewrite E2, bind_Ret.
    set (g4 := push (renderBlockContent' (writeStartTag (getType block) g2) block)
                    (writeStartTag (getType block) g2)) in *.
    destruct Q4 as (S4 & C4 & W4 & L4).
    assert (S14 : Steps g g4) by (by eapply Steps_trans).
    assert (Hplain :
      exists g', Ret (writeEndTag (getType block)
                        (with_currentBlock g4 (currentBlock g4 + 1))) = Ret g'
        /\ Steps g g' /\ wrapperTag g' = getWrapperTag (getType block)
        /\ (currentBlock g < currentBlock g' <= length (blocks g))%nat
        /\ exists rest,
             output g'
             = output g
               ++ (if decide (wrapperTag g = getWrapperTag (getType block)) then []
                   else closingFragments g
                        ++ openingFragments g (getWrapperTag (getType block)))
               ++ rest).
    { destruct (advance_ok (getType block) g4) as (S5 & W5 & C5).
      eexists. split; [done |]. split; [by eapply Steps_trans |].
      split; [congruence |]. split; [lia |].
      destruct (Steps_output _ _ (Steps_trans _ _ _ S4 S5)) as [rest Hrest].
      exists rest. by rewrite Hrest, O1, <- app_assoc. }
    unfold getNextBlock.
    destruct (blocks g4 !! (currentBlock g4 + 1)%nat) as [nextBlock|] eqn:Hnext;
      [| exact Hplain].
    destruct (canHaveDepth (getType block)
              && (getDepth nextBlock =? getDepth block + 1)%nat) eqn:Hnest;
      [| exact Hplain].
    clear Hplain. apply andb_true_iff in Hnest as [Hcan _].
    destruct (canHaveDepth_wrapper _ Hcan) as [w Hwrap].
    rewrite (Steps_blocks _ _ S14), C4, C1 in Hnext.
    pose proof (lookup_lt_Some _ _ _ Hnext) as Hlt'.
    assert (W4' : wrapperTag g4 = Some w) by congruence.
    assert (L4' : indentLevel g4 = (baseIndent g + 1)%Z).
    { rewrite <- (Steps_baseIndent _ _ S14). unfold baseIndent. rewrite W4'. lia. }
    match goal with
    | |- context [processBlocksAtDepth _ _ fuel _ ?x ≫= _] => set (g5 := x)
    end.
    destruct (IHD (getDepth nextBlock) g5) as (g6 & E6 & S6 & W6 & C6).
    { by left. }
    { unfold baseIndent. subst g5. fields. lia. }
    { subst g5. fields. rewrite (Steps_blocks _ _ S14). lia. }
    { subst g5. fields. rewrite (Steps_blocks _ _ S14). lia. }
    rewrite E6, bind_Ret.
    assert (L6 : indentLevel g6 = (baseIndent g + 2)%Z).
    { pose proof (Steps_baseIndent _ _ S6) as B6. unfold baseIndent in B6.
      rewrite W6 in B6. subst g5. fields. lia. }
    match goal with
    | |- context [indent ?x] => set (g7 := x)
    end.
    assert (S47 : Steps g4 g7).
    { destruct S6 as (D6 & B6 & delta & O6 & Sc6).
      split; [| split].
      - destruct D6 as (? & ? & ? & ?). subst g5 g7. by repeat split.
      - unfold baseIndent. subst g7. fields. rewrite W4'. lia.
      - exists (String Js.LF EmptyString :: delta). split.
        + subst g5 g7. fields. rewrite O6. by rewrite <- app_assoc.
        + intros T. rewrite W4'. subst g5 g7. fields. rewrite W4'.
          cbn [scanWrappers openWrappers app]. 
          replace (wrapperEvent (String Js.LF EmptyString)) with (@None WrapperEvent)
            by reflexivity.
          rewrite W6 in Sc6. apply (Sc6 (w :: T)). }
    destruct (Quiet_indent g7) as (g8 & E8 & Q8).
    { subst g7. fields. lia. }
    rewrite E8, bind_Ret.
    destruct Q8 as (S8 & C8 & W8 & L8).
    destruct (Quiet_writeEndTag (getType block) g8) as (S9 & C9 & W9 & L9).
    assert (S49 : Steps g4 (writeEndTag (getType block) g8)).
    { eapply Steps_trans; [exact S47 |]. by eapply Steps_trans. }
    eexists. split; [done |]. split; [by eapply Steps_trans |].
    split; [| split].
    + rewrite W9, W8. subst g7. fields. congruence.
    + rewrite C9, C8. subst g7 g5. fields. rewrite (Steps_blocks _ _ S14) in C6.
      lia.
    + destruct (Steps_output _ _ (Steps_trans _ _ _ S4 S49)) as [rest Hrest].
      exists rest. by rewrite Hrest, O1, <- app_assoc.
  - intros depth g Hw Hb Hle Hfuel.
    rewrite processBlocksAtDepth_S.
    assert (Hclose : exists g', closeWrapperTag g = Ret g' /\ Steps g g'
              /\ wrapperTag g' = None
              /\ (currentBlock g <= currentBlock g' <= length (blocks g))%nat).
    { destruct (closeWrapperTag_ok g Hw Hb) as (g' & E & St & W & C & _).
      exists g'. do 3 (split; [done |]). lia. }
    destruct (blocks g !! currentBlock g) as [block|] eqn:Hblock; [| exact Hclose].
    destruct (getDepth block =? depth)%nat; [| exact Hclose].
    clear Hclose. pose proof (lookup_lt_Some _ _ _ Hblock) as Hlt.
    destruct (IHB g block Hblock Hw Hb) as (g1 & E1 & S1 & W1 & C1 & _); [lia |].
    rewrite E1, bind_Ret.
    destruct (IHD depth g1) as (g2 & E2 & S2 & W2 & C2).
    { rewrite W1. apply getWrapperTag_named. }
    { by rewrite (Steps_baseIndent _ _ S1). }
    { rewrite (Steps_blocks _ _ S1). lia. }
    { rewrite (Steps_blocks _ _ S1). lia. }
    exists g2. split; [done |]. split; [by eapply Steps_trans |].
    split; [done |]. rewrite (Steps_blocks _ _ S1) in C2. lia.
Qed.

End Traversal.

(** * [generate] *)

Section Generate.

Variable getEntityRanges : string -> CharacterMetaList -> list EntityRange.
Variable Entity_get : string -> option EntityInstance.

Local Abbreviation processBlock' := (processBlock getEntityRanges Entity_get).
Local Abbreviation generate_loop' := (generate_loop getEntityRanges Entity_get).
Local Abbreviation generate_run' := (generate_run getEntityRanges Entity_get).
Local Abbreviation generate' := (generate getEntityRanges Entity_get).

Lemma generate_loop_ok (fuel : nat) g :
  totalBlocks g = length (blocks g) ->
  wrapperNamed (wrapperTag g) -> (0 <= baseIndent g)%Z ->
  (currentBlock g <= length (blocks g))%nat ->
  (2 * (length (blocks g) - currentBlock g) + 1 <= fuel)%nat ->
  exists g', generate_loop' fuel g = Ret g' /\ Steps g g'
             /\ wrapperNamed (wrapperTag g').
Proof.
  revert g. induction fuel as [|fuel IH]; intros g Ht Hw Hb Hle Hfuel; [lia |].
  cbn [generate_loop].
  destruct (Nat.ltb_spec (currentBlock g) (totalBlocks g)) as [Hlt | Hge].
  - rewrite Ht in Hlt.
    destruct (lookup_lt_is_Some_2 (blocks g) (currentBlock g) Hlt) as [block Hblock].
    destruct (proj1 (traversal_ok getEntityRanges Entity_get fuel) g block Hblock Hw Hb)
      as (g1 & E1 & S1 & W1 & C1 & _); [lia |].
    rewrite E1, bind_Ret.
    destruct (IH g1) as (g2 & E2 & S2 & W2).
    + by rewrite (Steps_totalBlocks _ _ S1), (Steps_blocks _ _ S1).
    + rewrite W1. apply getWrapperTag_named.
    + by rewrite (Steps_baseIndent _ _ S1).
    + rewrite (Steps_blocks _ _ S1). lia.
    + rewrite (Steps_blocks _ _ S1). lia.
    + exists g2. split; [done |]. split; [by eapply Steps_trans | done].
  - exists g. split; [done |]. split; [apply Steps_refl | done].
Qed.

(** [generate] returns for every document: no exception, and the fuel it
    is given is enough.  It ends with no container open and with every
    container it opened closed. *)
Lemma generate_run_ok g :
  exists g', generate_run' g = Ret g' /\ wrapperTag g' = None
             /\ scanWrappers [] (output g') = Some []
             /\ checkedStateMap g' = checkedStateMap g.
Proof.
  unfold generate_run.
  destruct (generate_loop_ok (2 * totalBlocks (generate_init g) + 1) (generate_init g))
    as (g1 & E1 & S1 & W1); try done.
  { by left. }
  { simpl. lia. }
  { simpl. lia. }
  cbv zeta. rewrite E1, bind_Ret.
  destruct (closeWrapperTag_ok g1 W1) as (g2 & E2 & S2 & W2 & _).
  { by rewrite (Steps_baseIndent _ _ S1). }
  exists g2. split; [done |]. split; [done |].
  destruct (Steps_trans _ _ _ S1 S2) as ((_ & _ & Hc & _) & _ & delta & O & Sc).
  split; [| exact Hc].
  rewrite O. simpl. specialize (Sc []). rewrite W2 in Sc. exact Sc.
Qed.


End Generate.

(** * Trimming *)

Lemma trimEnd_app_nonempty (s t : string) :
  Js.trimEnd t <> EmptyString -> Js.trimEnd (s +:+ t) <> EmptyString.
Proof.
  intros Ht. induction s as [|c s IH]; simpl; [done |].
  destruct (Js.trimEnd (s +:+ t)); [done | done].
Qed.

Lemma trimEnd_app (s t : string) :
  Js.trimEnd t <> EmptyString -> Js.trimEnd (s +:+ t) = s +:+ Js.trimEnd t.
Proof.
  intros Ht. induction s as [|c s IH]; simpl; [done |].
  rewrite IH. pose proof (trimEnd_app_nonempty s t Ht) as Hne.
  rewrite IH in Hne. by destruct (s +:+ Js.trimEnd t).
Qed.

Lemma trim_keep (p t : string) :
  match p with String c _ => Js.isTrimSpace c | EmptyString => true end = false ->
  Js.trimEnd t <> EmptyString ->
  Js.trim (p +:+ t) = p +:+ Js.trimEnd t.
Proof.
  intros Hc Ht. destruct p as [|c p]; [done |].
  unfold Js.trim. cbn [String.append Js.trimStart]. rewrite Hc.
  apply (trimEnd_app (String c p) t Ht).
Qed.

(** * Content depends on the generator through the checked-state map *)

Lemma renderBlockContent_checkedStateMap
    (getEntityRanges : string -> CharacterMetaList -> list EntityRange)
    (Entity_get : string -> option EntityInstance) g g' block :
  checkedStateMap g = checkedStateMap g' ->
  renderBlockContent getEntityRanges Entity_get g block
  = renderBlockContent getEntityRanges Entity_get g' block.
Proof.
  intros E. unfold renderBlockContent.
  destruct (String.eqb _ _); [done |]. f_equal. apply map_ext. intros [k pieces].
  unfold renderEntityPiece.
  assert (Hp : map (renderStylePiece g block) pieces
               = map (renderStylePiece g' block) pieces).
  { apply map_ext. intros [text style].
    unfold renderStylePiece, wrapStyleTags, checkbox. by rewrite E. }
  by rewrite Hp.
Qed.

Example encodeContent_ex :
  encodeContent "a<b & c>" = "a&lt;b &amp; c&gt;".
Proof. reflexivity. Qed.

Example encodeAttr_ex :
  encodeAttr (String "034"%char "&") = "&quot;&amp;".
Proof. reflexivity. Qed.

Example decamelize_backgroundColor :
  decamelize "backgroundColor" "-" = "background-color".
Proof. reflexivity. Qed.

Example decamelize_runs :
  decamelize "fooBARBaz9X" "_" = "foo_bar_baz9_x".
Proof. reflexivity. Qed.

Example preserveWhitespace_ex :
  preserveWhitespace "  a  b  "
  = String Js.NBSP (String Js.NBSP ("a " +:+ String Js.NBSP ("b " +:+ String Js.NBSP EmptyString))).
Proof. reflexivity. Qed.

Example stateToHTML_nested_list :
  stateToHTML getEntityRanges_model noEntities
    [ plainBlock "a" BLOCK_TYPE.UNORDERED_LIST_ITEM 0 "one";
      plainBlock "b" BLOCK_TYPE.UNORDERED_LIST_ITEM 1 "two";
      plainBlock "c" BLOCK_TYPE.UNORDERED_LIST_ITEM 0 "three" ] ∅
  = Ret ("<ul>" +:+ String Js.LF
          ("  <li>one" +:+ String Js.LF
          ("    <ul>" +:+ String Js.LF
          ("      <li>two</li>" +:+ String Js.LF
          ("    </ul>" +:+ String Js.LF
          ("  </li>" +:+ String Js.LF
          ("  <li>three</li>" +:+ String Js.LF
          "</ul>"))))))).
Proof. vm_compute. reflexivity. Qed.

Example stateToHTML_mixed_document :
  stateToHTML getEntityRanges_model sampleEntities mixedDocument {[ "item" := true ]}
  = Ret ("<div><strong>Hi</strong> &nbsp;<a href=" +:+ DQ +:+ "https://x" +:+ DQ
         +:+ ">t<em>he</em>re</a> &amp; &lt;x&gt;</div>" +:+ String Js.LF
         ("<pre><code>x<br/>" +:+ String Js.LF
         ("y</code></pre>" +:+ String Js.LF
         ("<ul>" +:+ String Js.LF
         ("  <li><input type=" +:+ DQ +:+ "checkbox" +:+ DQ +:+ " checked />do</li>"
          +:+ String Js.LF
         ("</ul>" +:+ String Js.LF
         ("<ol>" +:+ String Js.LF
         ("  <li><br/></li>" +:+ String Js.LF
         "</ol>")))))))).
Proof. vm_compute. reflexivity. Qed.

(** * Style nesting *)

(** C1 as stated does not hold: with BOLD, ITALIC and UNDERLINE on a run
    of an unstyled block the fragment is not
    [<ins><em><strong>E</strong></em></ins>]. *)
Lemma style_nesting_not_ins_outermost :
  renderStylePiece sampleGenerator sampleBlock ("x", [BOLD; ITALIC; UNDERLINE])
  <> "<ins><em><strong>" +:+ encodeContent "x" +:+ "</strong></em></ins>"
  /\ renderStylePiece_old sampleGenerator sampleBlock ("x", [BOLD; ITALIC; UNDERLINE])
     <> "<ins><em><strong>" +:+ encodeContent "x" +:+ "</strong></em></ins>".
Proof. split; vm_compute; discriminate. Qed.

(** C1, amended.  A style run whose set holds exactly BOLD, ITALIC and
    UNDERLINE, in a block that is neither a code block nor a checkable item,
    renders as [<em><ins><strong>E</strong></ins></em>].  In general the
    fragment is the checkbox (checkable items only), the opening tags, the
    legacy span around the encoded text and the closing tags, where the tags
    are those of [STYLE_TAGS] that are switched on, outermost first: code,
    del, em, ins, strong, then the legacy span innermost.  This holds for
    both source files, and in the first the fragment depends only on which
    styles the set holds, not on their order. *)
Theorem style_nesting_order g block (text : string) (style : DraftInlineStyle) :
  (BLOCK_TYPE.isCODE (getType block) = false ->
   BLOCK_TYPE.isCHECKABLE_LIST_ITEM (getType block) = false ->
   (forall name, In name style <-> name = BOLD \/ name = ITALIC \/ name = UNDERLINE) ->
   renderStylePiece g block (text, style)
   = "<em><ins><strong>" +:+ encodeContent text +:+ "</strong></ins></em>"
   /\ renderStylePiece_old g block (text, style)
      = "<em><ins><strong>" +:+ encodeContent text +:+ "</strong></ins></em>")
  /\ renderStylePiece g block (text, style)
     = (if BLOCK_TYPE.isCHECKABLE_LIST_ITEM (getType block)
        then checkbox g block else EmptyString)
       +:+ openTags (styleTags (getType block) style)
       +:+ colorSpan style (encodeContent text)
       +:+ closeTags (styleTags (getType block) style)
  /\ renderStylePiece_old g block (text, style)
     = (if BLOCK_TYPE.isCHECKABLE_LIST_ITEM (getType block)
        then checkbox g block else EmptyString)
       +:+ openTags (styleTags (getType block) style)
       +:+ oldStyleSpan style (encodeContent text)
       +:+ closeTags (styleTags (getType block) style)
  /\ (forall style', (forall name, In name style <-> In name style') ->
        styleTags (getType block) style = styleTags (getType block) style'
        /\ renderStylePiece g block (text, style)
           = renderStylePiece g block (text, style')).
Proof.
  split; [| split; [| split]].
  - intros Hcode Hcheck Hset.
    assert (E : forall name, Style.has style name
                             = Style.has [BOLD; ITALIC; UNDERLINE] name).
    { apply has_ext. intros name. rewrite Hset. simpl. intuition congruence. }
    unfold renderStylePiece, renderStylePiece_old.
    rewrite oldStyleSpan_plain.
    2:{ intros name Hin. apply Hset in Hin. by destruct Hin as [-> | [-> | ->]]. }
    rewrite (colorSpan_ext _ _ _ E), !(wrapStyleTags_ext _ _ _ _ _ E).
    unfold wrapStyleTags. rewrite Hcheck. cbn.
    by rewrite ?append_assoc.
  - apply wrapStyleTags_nesting.
  - apply wrapStyleTags_nesting.
  - intros style' Hsame. pose proof (has_ext _ _ Hsame) as E. split.
    + unfold styleTags, STYLE_TAGS. cbn [List.filter]. by rewrite !E.
    + unfold renderStylePiece.
      by rewrite (colorSpan_ext _ _ _ E), (wrapStyleTags_ext _ _ _ _ _ E).
Qed.

Lemma style_nesting_order_witness :
  renderStylePiece sampleGenerator sampleBlock ("a<b", [UNDERLINE; BOLD; ITALIC])
  = "<em><ins><strong>" +:+ encodeContent "a<b" +:+ "</strong></ins></em>"
  /\ renderStylePiece sampleGenerator sampleBlock ("a<b", [UNDERLINE; BOLD; ITALIC])
     = renderStylePiece sampleGenerator sampleBlock ("a<b", [ITALIC; UNDERLINE; BOLD]).
Proof.
  destruct (style_nesting_order sampleGenerator sampleBlock "a<b"
              [UNDERLINE; BOLD; ITALIC]) as [H1 [_ [_ H4]]].
  split.
  - apply H1; [reflexivity | reflexivity |].
    intros name. simpl. intuition.
  - apply (H4 [ITALIC; UNDERLINE; BOLD]). intros name. simpl. intuition.
Defined.

(** * Encoding *)

(** C3 as stated does not hold: a text with an ampersand and a newline is
    not recovered by decoding the entities of its encoding, though the
    whitespace pass leaves it as it is. *)
Lemma decode_encode_newline_counterexample :
  Js.occurs "&" ampersandNewline = true
  /\ preserveWhitespace ampersandNewline = ampersandNewline
  /\ decodeEntities (encodeContent (preserveWhitespace ampersandNewline))
     <> preserveWhitespace ampersandNewline.
Proof. vm_compute. repeat split; discriminate. Qed.

(** C3, amended.  [encodeContent] is one pass that writes [&amp;] for
    every ampersand, [&lt;] for every less-than and [&gt;] for every
    greater-than (so no entity it wrote is encoded again); decoding the
    entities of the result gives the text back with [<br/>] before every
    newline, hence the text itself when it has no newline, also after the
    whitespace pass has put its sentinels in. *)
Theorem encodeContent_roundtrip (text : string) :
  encodeContent text = Js.flatMap contentEntity text
  /\ contentEntity "&" = "&amp;"
  /\ contentEntity "<" = "&lt;"
  /\ contentEntity ">" = "&gt;"
  /\ decodeEntities (encodeContent text)
     = Js.replaceAll Js.LF (BREAK +:+ String Js.LF EmptyString) text
  /\ (Js.occurs Js.LF text = false ->
      decodeEntities (encodeContent text) = text
      /\ decodeEntities (encodeContent (preserveWhitespace text))
         = preserveWhitespace text).
Proof.
  split; [apply encodeContent_flatMap |].
  do 3 (split; [reflexivity |]).
  split; [apply decode_encodeContent |].
  intros Hlf. rewrite !decode_encodeContent. split.
  - by apply replaceAll_absent.
  - apply replaceAll_absent. by apply preserveWhitespace_occurs.
Qed.

Lemma encodeContent_roundtrip_witness :
  decodeEntities (encodeContent " a<b & c> ") = " a<b & c> "
  /\ decodeEntities (encodeContent (preserveWhitespace " a<b & c> "))
     = preserveWhitespace " a<b & c> ".
Proof.
  apply (encodeContent_roundtrip " a<b & c> "). reflexivity.
Defined.

(** * Whitespace *)

Lemma preservedAt_collapsible (text : string) (i : nat) (c : ascii) :
  String.get i text = Some c ->
  (collapsible text i -> preservedAt text i c = Js.NBSP)
  /\ (~ collapsible text i -> preservedAt text i c = c).
Proof.
  intros Hc. unfold preservedAt, collapsible. rewrite Hc. split.
  - intros [[= ->] Hpos].
    replace (Ascii.eqb " " " ") with true by reflexivity. cbn [andb].
    destruct Hpos as [-> | [-> | [j [-> Hj]]]].
    + reflexivity.
    + by rewrite Nat.eqb_refl, orb_true_r.
    + replace (S j - 1)%nat with j by lia. rewrite Hj.
      replace (Ascii.eqb " " " ") with true by reflexivity.
      by rewrite !orb_true_r.
  - intros Hno. destruct (Ascii.eqb_spec c " ") as [-> | Hne]; [| done].
    cbn [andb].
    destruct (i =? 0)%nat eqn:E0.
    { apply Nat.eqb_eq in E0. exfalso. apply Hno. auto. }
    destruct (i =? String.length text - 1)%nat eqn:E1.
    { apply Nat.eqb_eq in E1. exfalso. apply Hno. auto. }
    cbn [orb].
    destruct i as [|j]; [done |].
    replace (S j - 1)%nat with j by lia.
    destruct (String.get j text) as [p|] eqn:Hp; [| done].
    destruct (Ascii.eqb_spec p " ") as [-> | Hp']; [| done].
    exfalso. apply Hno. split; [done |]. right. right. by exists j.
Qed.

(** C4.  [preserveWhitespace] keeps the length of the text; at every index
    it writes U+00A0 when the code unit there is a space that opens the
    text, closes it or follows another space, and the code unit of the text
    in every other case; [renderBlockContent] runs it once on the text of
    the block and hands the result to the run splitter. *)
Theorem preserveWhitespace_sentinel
    (getEntityRanges : string -> CharacterMetaList -> list EntityRange)
    (Entity_get : string -> option EntityInstance)
    (g : MarkupGenerator) (block : ContentBlock) (i : nat) (c : ascii) :
  String.get i (getText block) = Some c ->
  String.length (preserveWhitespace (getText block)) = String.length (getText block)
  /\ (collapsible (getText block) i ->
      String.get i (preserveWhitespace (getText block)) = Some Js.NBSP)
  /\ (~ collapsible (getText block) i ->
      String.get i (preserveWhitespace (getText block)) = Some c)
  /\ renderBlockContent getEntityRanges Entity_get g block
     = Js.join EmptyString
         (map (renderEntityPiece Entity_get g block)
              (getEntityRanges (preserveWhitespace (getText block))
                               (getCharacterList block))).
Proof.
  intros Hc. pose proof (preservedAt_collapsible _ _ _ Hc) as [Hyes Hno].
  split; [apply preserveWhitespace_length |].
  split; [| split].
  - intros H. rewrite (preserveWhitespace_get _ _ _ Hc). f_equal. auto.
  - intros H. rewrite (preserveWhitespace_get _ _ _ Hc). f_equal. auto.
  - unfold renderBlockContent.
    destruct (String.eqb_spec (getText block) EmptyString) as [E | _]; [| done].
    rewrite E in Hc. by destruct i.
Qed.

Lemma preserveWhitespace_sentinel_witness :
  String.get 4 (preserveWhitespace "  a  b  ") = Some Js.NBSP
  /\ String.get 3 (preserveWhitespace "  a  b  ") = Some " "%char.
Proof.
  split.
  - refine (proj1 (proj2 (preserveWhitespace_sentinel getEntityRanges_model noEntities
               sampleGenerator (plainBlock "k" BLOCK_TYPE.UNSTYLED 0 "  a  b  ")
               4 " "%char _)) _).
    + reflexivity.
    + split; [reflexivity |]. right. right. exists 3%nat. split; reflexivity.
  - refine (proj1 (proj2 (proj2 (preserveWhitespace_sentinel getEntityRanges_model noEntities
               sampleGenerator (plainBlock "k" BLOCK_TYPE.UNSTYLED 0 "  a  b  ")
               3 " "%char _))) _).
    + reflexivity.
    + intros [_ [H | [H | [j [H Hj]]]]]; try discriminate.
      injection H as <-. discriminate.
Defined.

(** * Empty blocks and the empty document *)

Lemma renderBlockContent_empty
    (getEntityRanges : string -> CharacterMetaList -> list EntityRange)
    (Entity_get : string -> option EntityInstance)
    (g : MarkupGenerator) (block : ContentBlock) :
  getText block = EmptyString ->
  renderBlockContent getEntityRanges Entity_get g block = BREAK.
Proof. intros E. unfold renderBlockContent. by rewrite E. Qed.

(** C7.  The content of a block with empty text is the placeholder
    [<br/>], which is not the empty string, and [generate] returns the
    empty string for a document without blocks. *)
Theorem empty_block_placeholder
    (getEntityRanges : string -> CharacterMetaList -> list EntityRange)
    (Entity_get : string -> option EntityInstance)
    (g : MarkupGenerator) :
  (forall block, getText block = EmptyString ->
     renderBlockContent getEntityRanges Entity_get g block = "<br/>"
     /\ renderBlockContent getEntityRanges Entity_get g block <> EmptyString)
  /\ (contentState g = [] ->
      generate getEntityRanges Entity_get g = Ret EmptyString).
Proof.
  split.
  - intros block E. rewrite (renderBlockContent_empty _ _ _ _ E). by split.
  - intros E. unfold generate, generate_run, generate_init. rewrite E. reflexivity.
Qed.

Lemma empty_block_placeholder_witness :
  renderBlockContent getEntityRanges_model noEntities sampleGenerator
    (plainBlock "k" BLOCK_TYPE.HEADER_ONE 0 EmptyString) = "<br/>"
  /\ stateToHTML getEntityRanges_model noEntities [] ∅ = Ret EmptyString.
Proof.
  split.
  - apply (proj1 (empty_block_placeholder getEntityRanges_model noEntities
                    sampleGenerator)). reflexivity.
  - apply (proj2 (empty_block_placeholder getEntityRanges_model noEntities
                    (new_MarkupGenerator [] ∅))). reflexivity.
Defined.

(** C9.  For a block with empty text [renderBlockContent] returns the
    placeholder alone, whatever the block type, the character list and the
    checked-state map are: the result holds no checkbox, no style tag, no
    legacy span, no anchor and no image. *)
Theorem empty_block_only_placeholder
    (getEntityRanges : string -> CharacterMetaList -> list EntityRange)
    (Entity_get : string -> option EntityInstance)
    (g : MarkupGenerator) (block : ContentBlock) :
  getText block = EmptyString ->
  renderBlockContent getEntityRanges Entity_get g block = BREAK
  /\ forall tag, In tag ["<input"; "<span"; "<strong"; "<ins"; "<em"; "<del";
                         "<code"; "<a"; "<img"] ->
       includes tag (renderBlockContent getEntityRanges Entity_get g block) = false.
Proof.
  intros E. rewrite (renderBlockContent_empty _ _ _ _ E). split; [done |].
  intros tag Hin. simpl in Hin.
  repeat (destruct Hin as [<- | Hin]; [reflexivity |]). done.
Qed.

Lemma empty_block_only_placeholder_witness :
  renderBlockContent getEntityRanges_model noEntities
    (new_MarkupGenerator [checkedItem] {[ "item" := true ]}) checkedItem = BREAK
  /\ includes "<input"
       (renderBlockContent getEntityRanges_model noEntities
          (new_MarkupGenerator [checkedItem] {[ "item" := true ]}) checkedItem)
     = false.
Proof.
  destruct (empty_block_only_placeholder getEntityRanges_model noEntities
              (new_MarkupGenerator [checkedItem] {[ "item" := true ]}) checkedItem)
    as [H1 H2]; [reflexivity |].
  split; [exact H1 |]. apply H2. simpl. auto.
Defined.

(** * Entities *)

Lemma renderEntityPiece_entity
    (Entity_get : string -> option EntityInstance)
    (g : MarkupGenerator) (block : ContentBlock)
    (key : string) (pieces : list StyleRange) (e : EntityInstance) :
  key <> EmptyString -> Entity_get key = Some e ->
  renderEntityPiece Entity_get g block (Some key, pieces)
  = let content := Js.join EmptyString (map (renderStylePiece g block) pieces) in
    if String.eqb (entityType e) ENTITY_TYPE.LINK then
      "<a" +:+ stringifyAttrs (Some (dataToAttr (entityType e) e)) +:+ ">"
        +:+ content +:+ "</a>"
    else if String.eqb (entityType e) ENTITY_TYPE.IMAGE then
      "<a href=" +:+ DQ +:+ template (prop (dataToAttr (entityType e) e) "href") +:+ DQ
        +:+ "><img src=" +:+ DQ +:+ template (prop (dataToAttr (entityType e) e) "src") +:+ DQ
        +:+ " alt=" +:+ DQ +:+ template (prop (dataToAttr (entityType e) e) "alt") +:+ DQ
        +:+ " /></a>"
    else content.
Proof.
  intros Hkey Hget. unfold renderEntityPiece.
  assert (Ht : truthy (Some key) = true) by (by destruct key).
  rewrite Ht, Hget. reflexivity.
Qed.

(** C8.  The anchor of a run with a LINK entity carries, for the fields of
    the entity data in their order, the attribute of each field that the
    table maps and that holds a string, and nothing for a field that is
    null, undefined or not in the table; with the data
    [{url: "https://x", rel: null}] the tag is [<a href="https://x">].
    The call returns in every case. *)
Theorem link_attribute_omission
    (Entity_get : string -> option EntityInstance)
    (g : MarkupGenerator) (block : ContentBlock)
    (key : string) (pieces : list StyleRange) (e : EntityInstance) :
  key <> EmptyString ->
  Entity_get key = Some e ->
  entityType e = ENTITY_TYPE.LINK ->
  List.NoDup (Obj.keys (entityData e)) ->
  renderEntityPiece Entity_get g block (Some key, pieces)
  = "<a" +:+ Js.join EmptyString (map linkAttribute (entityData e)) +:+ ">"
      +:+ Js.join EmptyString (map (renderStylePiece g block) pieces) +:+ "</a>"
  /\ (forall field,
        snd field = Null \/ snd field = Undefined
        \/ Obj.get LINK_FIELDS (fst field) = None ->
        linkAttribute field = EmptyString)
  /\ (entityData e = [("url", Str "https://x"); ("rel", Null)] ->
      renderEntityPiece Entity_get g block (Some key, pieces)
      = "<a href=" +:+ DQ +:+ "https://x" +:+ DQ +:+ ">"
          +:+ Js.join EmptyString (map (renderStylePiece g block) pieces) +:+ "</a>").
Proof.
  intros Hkey Hget Hty Hnd.
  assert (Hr : renderEntityPiece Entity_get g block (Some key, pieces)
               = "<a" +:+ Js.join EmptyString (map linkAttribute (entityData e))
                   +:+ ">"
                   +:+ Js.join EmptyString (map (renderStylePiece g block) pieces)
                   +:+ "</a>").
  { rewrite (renderEntityPiece_entity _ _ _ _ _ _ Hkey Hget). rewrite Hty.
    rewrite String.eqb_refl. cbv zeta. by rewrite stringifyAttrs_LINK. }
  split; [exact Hr |]. split.
  - intros [k v] H. unfold linkAttribute. cbn [fst snd] in *.
    destruct H as [-> | [-> | ->]]; [| | done];
      by destruct (Obj.get LINK_FIELDS k).
  - intros Hdata. rewrite Hr, Hdata. reflexivity.
Qed.

Lemma link_attribute_omission_witness :
  renderEntityPiece sampleEntities sampleGenerator sampleBlock
    (Some "1", [("x", [])])
  = "<a href=" +:+ DQ +:+ "https://x" +:+ DQ +:+ ">x</a>".
Proof.
  refine (proj2 (proj2 (link_attribute_omission sampleEntities sampleGenerator
            sampleBlock "1" [("x", [])] linkEntity _ _ _ _)) _).
  - discriminate.
  - reflexivity.
  - reflexivity.
  - simpl. repeat constructor; simpl; intuition discriminate.
  - reflexivity.
Defined.

(** C10.  The markup of a run with an IMAGE entity is
    [<a href="H"><img src="S" alt="A" /></a>] whatever the style runs are,
    and [H], [S] or [A] is the text [undefined] when the entity data has no
    [data-original-url], [src] or [alt] field. *)
Theorem image_missing_fields
    (Entity_get : string -> option EntityInstance)
    (g : MarkupGenerator) (block : ContentBlock)
    (key : string) (e : EntityInstance) :
  key <> EmptyString ->
  Entity_get key = Some e ->
  entityType e = ENTITY_TYPE.IMAGE ->
  exists href src alt,
    (forall pieces,
       renderEntityPiece Entity_get g block (Some key, pieces)
       = "<a href=" +:+ DQ +:+ href +:+ DQ
           +:+ "><img src=" +:+ DQ +:+ src +:+ DQ
           +:+ " alt=" +:+ DQ +:+ alt +:+ DQ +:+ " /></a>")
    /\ (~ In "data-original-url" (Obj.keys (entityData e)) -> href = "undefined")
    /\ (~ In "src" (Obj.keys (entityData e)) -> src = "undefined")
    /\ (~ In "alt" (Obj.keys (entityData e)) -> alt = "undefined").
Proof.
  intros Hkey Hget Hty.
  assert (Hmiss : forall field a,
            (forall k, Obj.get IMAGE_FIELDS k = Some a -> k = field) ->
            ~ In field (Obj.keys (entityData e)) ->
            template (prop (dataToAttr ENTITY_TYPE.IMAGE e) a) = "undefined").
  { intros field a Honly Hno. unfold prop.
    destruct (Obj.get (dataToAttr ENTITY_TYPE.IMAGE e) a) as [v|] eqn:Hv; [| done].
    exfalso. apply Hno.
    assert (Hin : In a (Obj.keys (dataToAttr ENTITY_TYPE.IMAGE e))).
    { destruct (get_None_keys (dataToAttr ENTITY_TYPE.IMAGE e) a) as [_ H].
      destruct (in_dec String.string_dec a
                  (Obj.keys (dataToAttr ENTITY_TYPE.IMAGE e))); [done |].
      rewrite H in Hv; done. }
    rewrite dataToAttr_IMAGE in Hin.
    apply mapFields_keys in Hin as [k [Hk Hmap]].
    by rewrite <- (Honly k Hmap). }
  assert (Honly : forall k a, Obj.get IMAGE_FIELDS k = Some a ->
            (k, a) = ("src", "src") \/ (k, a) = ("alt", "alt")
            \/ (k, a) = ("data-original-url", "href")).
  { intros k a H. apply get_In in H. simpl in H. intuition. }
  exists (template (prop (dataToAttr ENTITY_TYPE.IMAGE e) "href")),
         (template (prop (dataToAttr ENTITY_TYPE.IMAGE e) "src")),
         (template (prop (dataToAttr ENTITY_TYPE.IMAGE e) "alt")).
  split; [| split; [| split]].
  - intros pieces.
    rewrite (renderEntityPiece_entity _ _ _ _ _ _ Hkey Hget). rewrite Hty.
    reflexivity.
  - apply Hmiss. intros k H. apply Honly in H. intuition congruence.
  - apply Hmiss. intros k H. apply Honly in H. intuition congruence.
  - apply Hmiss. intros k H. apply Honly in H. intuition congruence.
Qed.

Lemma image_missing_fields_witness :
  exists href src alt,
    (forall pieces,
       renderEntityPiece sampleEntities sampleGenerator sampleBlock (Some "2", pieces)
       = "<a href=" +:+ DQ +:+ href +:+ DQ
           +:+ "><img src=" +:+ DQ +:+ src +:+ DQ
           +:+ " alt=" +:+ DQ +:+ alt +:+ DQ +:+ " /></a>")
    /\ src = "undefined".
Proof.
  destruct (image_missing_fields sampleEntities sampleGenerator sampleBlock
              "2" imageEntity) as [href [src [alt [H [_ [Hsrc _]]]]]].
  - discriminate.
  - reflexivity.
  - reflexivity.
  - exists href, src, alt. split; [exact H |]. apply Hsrc.
    simpl. intuition discriminate.
Defined.

Example image_without_src :
  renderEntityPiece sampleEntities sampleGenerator sampleBlock
    (Some "2", [("x", [BOLD])])
  = "<a href=" +:+ DQ +:+ "h" +:+ DQ +:+ "><img src=" +:+ DQ +:+ "undefined" +:+ DQ
      +:+ " alt=" +:+ DQ +:+ "a" +:+ DQ +:+ "b" +:+ DQ +:+ " /></a>".
Proof. reflexivity. Qed.

(** C5 does not hold of the code: the [alt] of an IMAGE entity reaches the
    markup as it is, double quote included, in the piece and in the markup
    of a whole document, whereas the same value in the [title] of a LINK
    entity goes through [encodeAttr]; and [encodeAttr] is one pass that
    changes the ampersand, less-than, greater-than and the double quote and
    nothing else. *)
Theorem image_attributes_not_escaped :
  stateToHTML getEntityRanges_model sampleEntities imageDocument ∅
  = Ret ("<div><a href=" +:+ DQ +:+ "h" +:+ DQ +:+ "><img src=" +:+ DQ
         +:+ "undefined" +:+ DQ +:+ " alt=" +:+ DQ +:+ ("a" +:+ DQ +:+ "b") +:+ DQ
         +:+ " /></a></div>")
  /\ renderEntityPiece sampleEntities sampleGenerator sampleBlock (Some "2", [])
  = "<a href=" +:+ DQ +:+ "h" +:+ DQ +:+ "><img src=" +:+ DQ +:+ "undefined" +:+ DQ
      +:+ " alt=" +:+ DQ +:+ ("a" +:+ DQ +:+ "b") +:+ DQ +:+ " /></a>"
  /\ encodeAttr ("a" +:+ DQ +:+ "b") = "a&quot;b"
  /\ renderEntityPiece sampleEntities sampleGenerator sampleBlock (Some "3", [])
     = "<a title=" +:+ DQ +:+ "a&quot;b" +:+ DQ +:+ "></a>"
  /\ (forall text, encodeAttr text = Js.flatMap attrEntity text)
  /\ (forall c, attrEntity c = String c EmptyString
        \/ c = "&"%char \/ c = "<"%char \/ c = ">"%char \/ c = "034"%char).
Proof.
  split; [vm_compute; reflexivity |].
  split; [reflexivity |]. split; [reflexivity |]. split; [reflexivity |].
  split; [apply encodeAttr_flatMap |].
  intros c. unfold attrEntity.
  destruct (Ascii.eqb_spec c "&"); [by auto |].
  destruct (Ascii.eqb_spec c "<"); [by auto |].
  destruct (Ascii.eqb_spec c ">"); [by auto |].
  destruct (Ascii.eqb_spec c "034"); [by auto |]. by left.
Qed.

(** * Nested lists *)

Section NestedList.

Variable getEntityRanges : string -> CharacterMetaList -> list EntityRange.
Variable Entity_get : string -> option EntityInstance.

Local Abbreviation content := (renderBlockContent getEntityRanges Entity_get).

(** The fragments [generate] writes for an item, a nested item and an
    item. *)
Lemma nested_list_output g b1 b2 b3 :
  contentState g = [b1; b2; b3] ->
  getType b1 = BLOCK_TYPE.UNORDERED_LIST_ITEM -> getDepth b1 = 0%nat ->
  getType b2 = BLOCK_TYPE.UNORDERED_LIST_ITEM -> getDepth b2 = 1%nat ->
  getType b3 = BLOCK_TYPE.UNORDERED_LIST_ITEM -> getDepth b3 = 0%nat ->
  exists g', generate_run getEntityRanges Entity_get g = Ret g'
    /\ output g'
       = [ EmptyString; "<ul>" +:+ String Js.LF EmptyString;
           "  "; "<li>"; content g b1; String Js.LF EmptyString;
           "    "; "<ul>" +:+ String Js.LF EmptyString;
           "      "; "<li>"; content g b2; "</li>" +:+ String Js.LF EmptyString;
           "    "; "</ul>" +:+ String Js.LF EmptyString;
           "  "; "</li>" +:+ String Js.LF EmptyString;
           "  "; "<li>"; content g b3; "</li>" +:+ String Js.LF EmptyString;
           EmptyString; "</ul>" +:+ String Js.LF EmptyString ].
Proof.
  intros Hdoc T1 D1 T2 D2 T3 D3.
  unfold generate_run, generate_init. rewrite Hdoc.
  destruct b1 as [k1 t1 d1 x1 m1], b2 as [k2 t2 d2 x2 m2], b3 as [k3 t3 d3 x3 m3].
  simpl in T1, D1, T2, D2, T3, D3. subst.
  cbv -[renderBlockContent].
  eexists. split; [reflexivity |]. cbv -[renderBlockContent].
  repeat (f_equal; try (apply renderBlockContent_checkedStateMap; reflexivity)).
Qed.

(** C2.  For an unordered item at depth 0, one at depth 1 and one at depth
    0 the markup is one [<ul>] that holds the [<li>] of the first block,
    with a nested [<ul>] around the [<li>] of the second block inside it,
    and after it the [<li>] of the third block; the outer [<ul>] is opened
    at the start and closed at the end. *)
Theorem nested_list_markup g b1 b2 b3 :
  contentState g = [b1; b2; b3] ->
  getType b1 = BLOCK_TYPE.UNORDERED_LIST_ITEM -> getDepth b1 = 0%nat ->
  getType b2 = BLOCK_TYPE.UNORDERED_LIST_ITEM -> getDepth b2 = 1%nat ->
  getType b3 = BLOCK_TYPE.UNORDERED_LIST_ITEM -> getDepth b3 = 0%nat ->
  generate getEntityRanges Entity_get g
  = Ret ("<ul>" +:+ String Js.LF
         ("  <li>" +:+ content g b1 +:+ String Js.LF
         ("    <ul>" +:+ String Js.LF
         ("      <li>" +:+ content g b2 +:+ "</li>" +:+ String Js.LF
         ("    </ul>" +:+ String Js.LF
         ("  </li>" +:+ String Js.LF
         ("  <li>" +:+ content g b3 +:+ "</li>" +:+ String Js.LF
         "</ul>"))))))).
Proof.
  intros Hdoc T1 D1 T2 D2 T3 D3.
  destruct (nested_list_output g b1 b2 b3 Hdoc T1 D1 T2 D2 T3 D3) as (g' & E & O).
  unfold generate. rewrite E, bind_Ret, O. f_equal.
  generalize (content g b1) (content g b2) (content g b3). intros c1 c2 c3.
  set (tail3 := "</li>" +:+ String Js.LF "</ul>" +:+ String Js.LF EmptyString).
  assert (Htail : Js.trimEnd tail3 <> EmptyString) by (vm_compute; discriminate).
  replace (Js.join EmptyString _)
    with (("<ul>" +:+ String Js.LF "  <li>")
          +:+ c1
          +:+ (String Js.LF "    <ul>" +:+ String Js.LF "      <li>")
          +:+ c2
          +:+ ("</li>" +:+ String Js.LF "    </ul>" +:+ String Js.LF "  </li>"
               +:+ String Js.LF "  <li>")
          +:+ c3 +:+ tail3)
    by (subst tail3; rewrite !join_empty_cons; string_assoc; reflexivity).
  rewrite trim_keep; [| reflexivity | by do 5 apply trimEnd_app_nonempty].
  rewrite !trimEnd_app by (by repeat first [exact Htail | apply trimEnd_app_nonempty]).
  subst tail3. string_assoc. reflexivity.
Qed.

End NestedList.

Lemma nested_list_markup_witness :
  stateToHTML getEntityRanges_model noEntities nestedListDocument ∅
  = Ret ("<ul>" +:+ String Js.LF
         ("  <li>one" +:+ String Js.LF
         ("    <ul>" +:+ String Js.LF
         ("      <li>two</li>" +:+ String Js.LF
         ("    </ul>" +:+ String Js.LF
         ("  </li>" +:+ String Js.LF
         ("  <li>three</li>" +:+ String Js.LF
         "</ul>"))))))).
Proof.
  exact (nested_list_markup getEntityRanges_model noEntities
           (new_MarkupGenerator nestedListDocument ∅)
           (plainBlock "a" BLOCK_TYPE.UNORDERED_LIST_ITEM 0 "one")
           (plainBlock "b" BLOCK_TYPE.UNORDERED_LIST_ITEM 1 "two")
           (plainBlock "c" BLOCK_TYPE.UNORDERED_LIST_ITEM 0 "three")
           eq_refl eq_refl eq_refl eq_refl eq_refl eq_refl eq_refl).
Defined.

(** * Containers are closed *)

(** C6.  For every document [generate] returns, ends with no container
    open, and the fragments it has written open and close containers in
    matching pairs, properly nested.  When [processBlock] finds a container
    open that is not the one its block needs, what it writes starts with
    the closing of the open container (if there is one) and goes on with
    the opening of the new one (if the block needs one), before anything
    of the block itself. *)
Theorem wrappers_closed
    (getEntityRanges : string -> CharacterMetaList -> list EntityRange)
    (Entity_get : string -> option EntityInstance)
    (g : MarkupGenerator) :
  (exists g',
      generate_run getEntityRanges Entity_get g = Ret g'
      /\ generate getEntityRanges Entity_get g
         = Ret (Js.trim (Js.join EmptyString (output g')))
      /\ wrapperTag g' = None
      /\ scanWrappers [] (output g') = Some [])
  /\ (forall fuel st block,
        blocks st !! currentBlock st = Some block ->
        wrapperNamed (wrapperTag st) -> (0 <= baseIndent st)%Z ->
        (2 * (length (blocks st) - currentBlock st) <= fuel)%nat ->
        wrapperTag st <> getWrapperTag (getType block) ->
        exists st' rest,
          processBlock getEntityRanges Entity_get fuel st = Ret st'
          /\ output st'
             = output st ++ closingFragments st
                 ++ openingFragments st (getWrapperTag (getType block)) ++ rest).
Proof.
  split.
  - destruct (generate_run_ok getEntityRanges Entity_get g) as (g' & E & W & Sc & _).
    exists g'. split; [done |]. split; [| done].
    unfold generate. by rewrite E.
  - intros fuel st block Hblock Hw Hb Hfuel Hne.
    destruct (proj1 (traversal_ok getEntityRanges Entity_get fuel) st block
                Hblock Hw Hb Hfuel) as (st' & E & _ & _ & _ & rest & O).
    exists st', rest. split; [done |].
    destruct (decide (wrapperTag st = getWrapperTag (getType block))); [done |].
    by rewrite O, <- app_assoc.
Qed.

Lemma wrappers_closed_witness :
  exists st' rest,
    processBlock getEntityRanges_model noEntities 2 listThenOrdered = Ret st'
    /\ output st'
       = output listThenOrdered
           ++ [ EmptyString; "</ul>" +:+ String Js.LF EmptyString ]
           ++ [ EmptyString; "<ol>" +:+ String Js.LF EmptyString ] ++ rest.
Proof.
  refine (proj2 (wrappers_closed getEntityRanges_model noEntities listThenOrdered)
            2%nat listThenOrdered
            (plainBlock "b" BLOCK_TYPE.ORDERED_LIST_ITEM 0 "two") _ _ _ _ _).
  - reflexivity.
  - right. left. reflexivity.
  - vm_compute. discriminate.
  - simpl. lia.
  - discriminate.
Defined.

Example ordered_after_unordered :
  stateToHTML getEntityRanges_model noEntities
    [ plainBlock "a" BLOCK_TYPE.UNORDERED_LIST_ITEM 0 "one";
      plainBlock "b" BLOCK_TYPE.ORDERED_LIST_ITEM 0 "two";
      plainBlock "c" BLOCK_TYPE.UNSTYLED 0 "three" ] ∅
  = Ret ("<ul>" +:+ String Js.LF
         ("  <li>one</li>" +:+ String Js.LF
         ("</ul>" +:+ String Js.LF
         ("<ol>" +:+ String Js.LF
         ("  <li>two</li>" +:+ String Js.LF
         ("</ol>" +:+ String Js.LF
         "<div>three</div>")))))).
Proof. vm_compute. reflexivity. Qed.

(** * More on the encoders *)

Lemma occurs_app (c : ascii) (a b : string) :
  Js.occurs c (a +:+ b) = Js.occurs c a || Js.occurs c b.
Proof.
  induction a as [|d a IH]; simpl; [done |]. by rewrite IH, orb_assoc.
Qed.

Lemma occurs_flatMap (c : ascii) (f : ascii -> string) (s : string) :
  (forall d, Js.occurs d s = true -> Js.occurs c (f d) = false) ->
  Js.occurs c (Js.flatMap f s) = false.
Proof.
  induction s as [|d s IH]; intros H; simpl; [done |].
  rewrite occurs_app, IH.
  - rewrite orb_false_r. apply H. simpl. by rewrite Ascii.eqb_refl.
  - intros e He. apply H. simpl. by rewrite He, orb_true_r.
Qed.

(** Encoding the pieces of a text and joining them is encoding the text:
    cutting a block into runs does not change how its characters are
    escaped. *)
Theorem encodeContent_app (a b : string) :
  encodeContent (a +:+ b) = encodeContent a +:+ encodeContent b
  /\ encodeAttr (a +:+ b) = encodeAttr a +:+ encodeAttr b.
Proof.
  rewrite !encodeContent_flatMap, !encodeAttr_flatMap. by rewrite !flatMap_app.
Qed.

Lemma decodeAttrFrom_attrEntity (c : ascii) (rest : string) :
  decodeAttrFrom 0 (attrEntity c +:+ rest) = String c (decodeAttrFrom 0 rest).
Proof. destruct c as [[] [] [] [] [] [] [] []]; reflexivity. Qed.

(** Decoding the entities of an encoded attribute value gives the value
    back, whatever it holds; so [encodeAttr] loses nothing: two values with
    the same encoding are the same value. *)
Theorem encodeAttr_roundtrip (text : string) :
  decodeAttrEntities (encodeAttr text) = text
  /\ forall text', encodeAttr text = encodeAttr text' -> text = text'.
Proof.
  assert (H : forall t, decodeAttrEntities (encodeAttr t) = t).
  { intros t. rewrite encodeAttr_flatMap. unfold decodeAttrEntities.
    induction t as [|c t IH]; [done |].
    cbn [Js.flatMap]. by rewrite decodeAttrFrom_attrEntity, IH. }
  split; [apply H |].
  intros text' E. rewrite <- (H text), <- (H text'). by rewrite E.
Qed.

Lemma encodeAttr_roundtrip_witness :
  (String "034" "a&b") = (String "034" "a&b").
Proof.
  apply (proj2 (encodeAttr_roundtrip (String "034" "a&b")) (String "034" "a&b")).
  reflexivity.
Defined.

(** An encoded attribute value holds no less-than, no greater-than and no
    double quote, so it cannot end the attribute or the tag it is written
    in. *)
Theorem encodeAttr_no_delimiter (text : string) :
  Js.occurs "<" (encodeAttr text) = false
  /\ Js.occurs ">" (encodeAttr text) = false
  /\ Js.occurs "034" (encodeAttr text) = false.
Proof.
  rewrite encodeAttr_flatMap.
  repeat split; apply occurs_flatMap; intros d _;
    destruct d as [[] [] [] [] [] [] [] []]; reflexivity.
Qed.

(** Encoded content holds no U+00A0, and no less-than or greater-than
    unless the text has a newline (each newline brings one [<br/>]). *)
Theorem encodeContent_no_markup (text : string) :
  Js.occurs Js.NBSP (encodeContent text) = false
  /\ (Js.occurs Js.LF text = false ->
      Js.occurs "<" (encodeContent text) = false
      /\ Js.occurs ">" (encodeContent text) = false).
Proof.
  rewrite encodeContent_flatMap. split.
  - apply occurs_flatMap. intros d _.
    destruct d as [[] [] [] [] [] [] [] []]; reflexivity.
  - intros Hlf. split; apply occurs_flatMap; intros d Hd;
      (destruct (Ascii.eqb_spec d Js.LF) as [-> | Hne]; [congruence |]);
      destruct d as [[] [] [] [] [] [] [] []]; try reflexivity; done.
Qed.

Lemma encodeContent_no_markup_witness :
  Js.occurs "<" (encodeContent "a<b>&") = false
  /\ Js.occurs ">" (encodeContent "a<b>&") = false.
Proof. apply (proj2 (encodeContent_no_markup "a<b>&")). reflexivity. Defined.

(** * More on [preserveWhitespace] *)

Lemma string_ext (a b : string) :
  (forall i, String.get i a = String.get i b) -> a = b.
Proof.
  revert b. induction a as [|c a IH]; intros [|d b] H.
  - done.
  - specialize (H 0%nat). discriminate.
  - specialize (H 0%nat). discriminate.
  - pose proof (H 0%nat) as H0. simpl in H0. injection H0 as ->.
    f_equal. apply IH. intros i. apply (H (S i)).
Qed.

Lemma get_ge_None (s : string) (i : nat) :
  (String.length s <= i)%nat -> String.get i s = None.
Proof.
  revert i. induction s as [|c s IH]; intros [|i]; simpl; try done; [lia |].
  intros H. apply IH. lia.
Qed.

Lemma preservedAt_space (text : string) (i : nat) (c : ascii) :
  preservedAt text i c = " "%char ->
  c = " "%char
  /\ i <> 0%nat /\ i <> (String.length text - 1)%nat
  /\ String.get (i - 1) text <> Some " "%char.
Proof.
  unfold preservedAt. destruct (Ascii.eqb_spec c " ") as [-> | Hne].
  - cbn [andb].
    destruct (Nat.eqb_spec i 0); [discriminate |].
    destruct (Nat.eqb_spec i (String.length text - 1)); [discriminate |].
    cbn [orb]. destruct (String.get (i - 1) text) as [p|]; [| done].
    destruct (Ascii.eqb_spec p " ") as [-> | Hp]; [discriminate |].
    intros _. repeat split; try done. congruence.
  - cbn [andb]. intros ->. done.
Qed.

Lemma not_collapsible_after (text : string) (i : nat) :
  ~ collapsible (preserveWhitespace text) i.
Proof.
  intros [Hi Hpos].
  pose proof (get_Some_lt _ _ _ Hi) as Hlt.
  rewrite preserveWhitespace_length in Hlt.
  destruct (get_lt_Some text i Hlt) as [c Hc].
  rewrite (preserveWhitespace_get _ _ _ Hc) in Hi. injection Hi as Hi.
  apply preservedAt_space in Hi as (-> & H0 & Hlast & Hprev).
  rewrite preserveWhitespace_length in Hpos.
  destruct Hpos as [-> | [-> | [j [-> Hj]]]]; [done | done |].
  replace (S j - 1)%nat with j in Hprev by lia.
  destruct (get_lt_Some text j) as [d Hd]; [lia |].
  rewrite (preserveWhitespace_get _ _ _ Hd) in Hj. injection Hj as Hj.
  apply preservedAt_space in Hj as (-> & _). done.
Qed.

(** After the pass no ordinary space is left where HTML would collapse it:
    none opens the text, none closes it, none follows another. *)
Theorem preserveWhitespace_no_collapsible (text : string) (i : nat) :
  ~ collapsible (preserveWhitespace text) i.
Proof. apply not_collapsible_after. Qed.

Lemma preservedAt_other (text : string) (i : nat) (c : ascii) :
  c <> " "%char -> preservedAt text i c = c.
Proof.
  intros Hc. unfold preservedAt. by destruct (Ascii.eqb_spec c " ").
Qed.

(** Running the pass again changes nothing. *)
Theorem preserveWhitespace_idempotent (text : string) :
  preserveWhitespace (preserveWhitespace text) = preserveWhitespace text.
Proof.
  apply string_ext. intros i.
  destruct (String.get i (preserveWhitespace text)) as [d|] eqn:Hd.
  - rewrite (preserveWhitespace_get _ _ _ Hd). f_equal.
    destruct (preservedAt_collapsible _ _ _ Hd) as [_ Hno].
    apply Hno, not_collapsible_after.
  - apply get_ge_None. rewrite preserveWhitespace_length.
    destruct (Nat.le_gt_cases (String.length (preserveWhitespace text)) i) as [H | H];
      [done |].
    destruct (get_lt_Some _ _ H) as [x Hx]. congruence.
Qed.

(** A text without spaces comes back as it is, the empty text included. *)
Theorem preserveWhitespace_no_space (text : string) :
  Js.occurs " " text = false -> preserveWhitespace text = text.
Proof.
  intros Hocc. apply string_ext. intros i.
  destruct (String.get i text) as [c|] eqn:Hc.
  - rewrite (preserveWhitespace_get _ _ _ Hc). f_equal.
    apply preservedAt_other. intros ->. by eapply occurs_get.
  - apply get_ge_None. rewrite preserveWhitespace_length.
    destruct (Nat.le_gt_cases (String.length text) i) as [H | H]; [done |].
    destruct (get_lt_Some _ _ H) as [x Hx]. congruence.
Qed.

Lemma preserveWhitespace_no_space_witness :
  preserveWhitespace "a<b>" = "a<b>".
Proof. apply preserveWhitespace_no_space. reflexivity. Defined.

(** * [decamelize] *)

Lemma everyChar_flatMap (p : ascii -> bool) (f : ascii -> string) (s : string) :
  (forall c, everyChar p (f c) = true) -> everyChar p (Js.flatMap f s) = true.
Proof.
  intros H. induction s as [|c s IH]; simpl; [done |].
  assert (Happ : forall a b, everyChar p a = true -> everyChar p b = true ->
                             everyChar p (a +:+ b) = true).
  { induction a as [|d a IHa]; simpl; [done |].
    intros b Ha Hb. apply andb_true_iff in Ha as [Hd Ha].
    by rewrite Hd, IHa. }
  by apply Happ.
Qed.

(** The result of [decamelize] holds no upper case letter A to Z, whatever
    the separator is. *)
Theorem decamelize_lower (str sep : string) :
  everyChar (fun c => negb (isUpper c)) (decamelize str sep) = true.
Proof.
  unfold decamelize, toLowerCase. apply everyChar_flatMap.
  intros c. destruct c as [[] [] [] [] [] [] [] []]; reflexivity.
Qed.

Lemma isLowered_not_upper (c : ascii) : isLowered c = true -> isUpper c = false.
Proof. destruct c as [[] [] [] [] [] [] [] []]; vm_compute; congruence. Qed.

Lemma replaceLowerUpper_id (sep s : string) :
  everyChar isLowered s = true -> replaceLowerUpper sep s = s.
Proof.
  induction s as [|c s IH]; [done |]. cbn [everyChar].
  intros H. apply andb_true_iff in H as [Hc Hs].
  cbn [replaceLowerUpper]. rewrite (IH Hs).
  destruct s as [|d s']; [done |].
  cbn [everyChar] in Hs. apply andb_true_iff in Hs as [Hd _].
  by rewrite (isLowered_not_upper d Hd), andb_false_r.
Qed.

Lemma replaceUpperRun_id (sep s : string) :
  everyChar isLowered s = true -> replaceUpperRun sep s = s.
Proof.
  induction s as [|c s IH]; [done |]. cbn [everyChar].
  intros H. apply andb_true_iff in H as [Hc Hs].
  cbn [replaceUpperRun]. rewrite (IH Hs).
  destruct s as [|d [|e s']]; [done | done |].
  by rewrite (isLowered_not_upper c Hc).
Qed.

(** A name without upper case letters has no word boundary and is returned
    as it is. *)
Theorem decamelize_lowered (str sep : string) :
  everyChar isLowered str = true -> decamelize str sep = str.
Proof.
  intros H. unfold decamelize.
  rewrite replaceLowerUpper_id, replaceUpperRun_id by done.
  unfold toLowerCase. induction str as [|c s IH]; [done |].
  cbn [everyChar] in H. apply andb_true_iff in H as [Hc Hs].
  cbn [Js.flatMap]. rewrite (IH Hs).
  unfold isLowered in Hc. apply Ascii.eqb_eq in Hc. by rewrite Hc.
Qed.

Lemma decamelize_lowered_witness : decamelize "color" "-" = "color".
Proof. apply decamelize_lowered. reflexivity. Defined.

(** * More on entities and attributes *)

Lemma mapFields_empty_table (data : Obj.t MaybeString) : mapFields [] data = [].
Proof.
  unfold mapFields. generalize (Obj.keys data). intros l.
  induction l as [|k l IH]; [done |]. simpl. apply IH.
Qed.

(** For an entity type that has no field table, [dataToAttr] gives the
    empty object whatever the data holds, and [stringifyAttrs] of it is the
    empty string. *)
Theorem dataToAttr_unknown_type (ty : string) (e : EntityInstance) :
  ty <> ENTITY_TYPE.LINK -> ty <> ENTITY_TYPE.IMAGE ->
  dataToAttr ty e = [] /\ stringifyAttrs (Some (dataToAttr ty e)) = EmptyString.
Proof.
  intros Hl Hi.
  assert (E : dataToAttr ty e = []).
  { unfold dataToAttr, Obj.hasOwnProperty, ENTITY_ATTR_MAP. cbn [Obj.get].
    apply String.eqb_neq in Hl, Hi.
    rewrite String.eqb_sym in Hl. rewrite String.eqb_sym in Hi.
    rewrite Hl, Hi. apply mapFields_empty_table. }
  by rewrite E.
Qed.

Lemma dataToAttr_unknown_type_witness :
  dataToAttr "MENTION" linkEntity = []
  /\ stringifyAttrs (Some (dataToAttr "MENTION" linkEntity)) = EmptyString.
Proof. apply dataToAttr_unknown_type; discriminate. Defined.

(** [dataToAttr] never makes an attribute outside the targets of the
    table: href, rel, target and title for a link; src, alt and href for an
    image. *)
Theorem dataToAttr_attribute_names (e : EntityInstance) (a : string) :
  (In a (Obj.keys (dataToAttr ENTITY_TYPE.LINK e)) ->
   In a ["href"; "rel"; "target"; "title"])
  /\ (In a (Obj.keys (dataToAttr ENTITY_TYPE.IMAGE e)) ->
      In a ["src"; "alt"; "href"]).
Proof.
  split; intros Hin.
  - rewrite dataToAttr_LINK in Hin. apply mapFields_keys in Hin as [k [_ Hk]].
    apply get_In in Hk. simpl in Hk |- *. intuition congruence.
  - rewrite dataToAttr_IMAGE in Hin. apply mapFields_keys in Hin as [k [_ Hk]].
    apply get_In in Hk. simpl in Hk |- *. intuition congruence.
Qed.

Lemma dataToAttr_attribute_names_witness : In "href" ["href"; "rel"; "target"; "title"].
Proof.
  apply (proj1 (dataToAttr_attribute_names linkEntity "href")).
  simpl. by left.
Defined.

Lemma IMAGE_FIELDS_injective : injectiveTable IMAGE_FIELDS.
Proof.
  intros k1 k2 a H1 H2. apply get_In in H1, H2. simpl in H1, H2.
  intuition congruence.
Qed.

Lemma get_renameField (attrMap : Obj.t string) (data : Obj.t MaybeString)
    (k a : string) :
  injectiveTable attrMap -> Obj.get attrMap k = Some a ->
  Obj.get (omap (renameField attrMap) data) a = Obj.get data k.
Proof.
  intros Hinj Hk. induction data as [|[k' v'] data IH]; [done |].
  cbn [omap list_omap]. unfold renameField at 1. cbn [fst snd Obj.get].
  destruct (String.eqb_spec k' k) as [-> | Hne].
  - rewrite Hk. cbn [Obj.get]. by rewrite String.eqb_refl.
  - destruct (Obj.get attrMap k') as [a'|] eqn:Hk'; [| exact IH].
    cbn [Obj.get]. destruct (String.eqb_spec a' a) as [-> | _]; [| exact IH].
    exfalso. apply Hne. by apply (Hinj k' k a).
Qed.

(** Every field of the table is carried over: the attribute a field
    stands for reads as the field does in the entity data, undefined when
    the data has no such field. *)
Theorem dataToAttr_lookup (e : EntityInstance) (k a : string) :
  List.NoDup (Obj.keys (entityData e)) ->
  (Obj.get LINK_FIELDS k = Some a ->
   prop (dataToAttr ENTITY_TYPE.LINK e) a = prop (entityData e) k)
  /\ (Obj.get IMAGE_FIELDS k = Some a ->
      prop (dataToAttr ENTITY_TYPE.IMAGE e) a = prop (entityData e) k).
Proof.
  intros Hnd. split; intros Hk; unfold prop.
  - rewrite dataToAttr_LINK, mapFields_omap
      by (done || apply LINK_FIELDS_injective).
    by rewrite (get_renameField _ _ k a LINK_FIELDS_injective Hk).
  - rewrite dataToAttr_IMAGE, mapFields_omap
      by (done || apply IMAGE_FIELDS_injective).
    by rewrite (get_renameField _ _ k a IMAGE_FIELDS_injective Hk).
Qed.

Lemma dataToAttr_lookup_witness :
  prop (dataToAttr ENTITY_TYPE.IMAGE imageEntity) "href" = Str "h".
Proof.
  refine (proj2 (dataToAttr_lookup imageEntity "data-original-url" "href" _) _).
  - simpl. repeat constructor; simpl; intuition discriminate.
  - reflexivity.
Defined.

Lemma join_empty_nil (l : list string) :
  Js.join EmptyString l = EmptyString <-> Forall (fun s => s = EmptyString) l.
Proof.
  induction l as [|s l IH]; [by split |].
  rewrite join_empty_cons. split.
  - intros H. destruct s; [| discriminate]. constructor; [done |]. by apply IH.
  - intros H. inversion H as [|? ? -> Hl]. simpl. by apply IH.
Qed.

(** [stringifyAttrs] gives the empty string exactly when no attribute
    holds a string: an object of null and undefined values adds nothing to
    the tag, and any string value, the empty one included, adds its
    attribute. *)
Theorem stringifyAttrs_empty (attrs : Obj.t MaybeString) :
  List.NoDup (Obj.keys attrs) ->
  (stringifyAttrs (Some attrs) = EmptyString
   <-> forall k v, In (k, v) attrs -> v = Null \/ v = Undefined).
Proof.
  intros Hnd. rewrite stringifyAttrs_entries by done.
  rewrite join_empty_nil, Forall_forall. split.
  - intros H k v Hin.
    assert (Ht : attrText (k, v) = EmptyString).
    { apply H, list_elem_of_In, in_map. done. }
    unfold attrText in Ht. cbn [fst snd] in Ht.
    destruct v; [by right | by left | discriminate].
  - intros H s Hs. apply list_elem_of_In, in_map_iff in Hs as [[k v] [<- Hin]].
    unfold attrText. cbn [fst snd]. destruct (H k v Hin) as [-> | ->]; done.
Qed.

Lemma stringifyAttrs_empty_witness :
  stringifyAttrs (Some [("rel", Null); ("title", Undefined)]) = EmptyString.
Proof.
  apply stringifyAttrs_empty.
  - simpl. repeat constructor; simpl; intuition discriminate.
  - intros k v Hin. simpl in Hin. intuition congruence.
Defined.



(** * More on style runs *)

Lemma COLOR_labels_truthy (label : string) :
  In label (Obj.keys COLOR_STYLE_MAP) -> label <> EmptyString.
Proof.
  simpl. intros H.
  repeat (destruct H as [<- | H]; [discriminate |]). done.
Qed.

(** A style run gets a legacy span exactly when its set holds a label of
    the colour table: without one the content is left as it is, so labels
    the table does not know are ignored; with one the content is put in a
    single [span] with a [style] attribute. *)
Theorem colorSpan_labels (style : DraftInlineStyle) (content : string) :
  ((forall label, In label (Obj.keys COLOR_STYLE_MAP) -> ~ In label style) ->
   colorSpan style content = content)
  /\ ((exists label, In label (Obj.keys COLOR_STYLE_MAP) /\ In label style) ->
      exists css, colorSpan style content
                  = "<span style=" +:+ DQ +:+ css +:+ DQ +:+ ">" +:+ content +:+ "</span>").
Proof.
  split.
  - intros H. unfold colorSpan.
    assert (E : List.filter (fun label => truthy (Style.get style label))
                  (Obj.keys COLOR_STYLE_MAP) = []).
    { generalize (Obj.keys COLOR_STYLE_MAP) H. intros l.
      induction l as [|x l IH]; intros Hl; [done |]. cbn [List.filter].
      unfold Style.get at 1.
      destruct (Style.has style x) eqn:Hx.
      - apply has_true in Hx. exfalso. apply (Hl x); [by left | done].
      - cbn [truthy]. apply IH. intros label Hin. apply Hl. by right. }
    by rewrite E.
  - intros (label & Hl & Hs). unfold colorSpan.
    set (included := List.filter _ _).
    assert (Hin : In label included).
    { apply filter_In. split; [done |]. unfold Style.get.
      apply has_true in Hs. rewrite Hs.
      pose proof (COLOR_labels_truthy label Hl). by destruct label. }
    destruct included as [|x included]; [done |]. cbn [length Nat.ltb Nat.leb].
    eexists. reflexivity.
Qed.

Lemma colorSpan_labels_witness :
  colorSpan [BOLD; "TEXT_PURPLE"] "x" = "x"
  /\ exists css, colorSpan [BOLD; "TEXT_RED"] "x"
                 = "<span style=" +:+ DQ +:+ css +:+ DQ +:+ ">" +:+ "x" +:+ "</span>".
Proof.
  split.
  - apply (proj1 (colorSpan_labels [BOLD; "TEXT_PURPLE"] "x")).
    intros label Hl Hs. simpl in Hs.
    destruct Hs as [<- | [<- | []]]; simpl in Hl; intuition discriminate.
  - apply (proj2 (colorSpan_labels [BOLD; "TEXT_RED"] "x")).
    exists "TEXT_RED". split; simpl; auto.
Defined.



(** The content of a block depends on the generator only through the
    entry of the checked-state map for the key of the block, and not at all
    when the block is not a checkable item. *)
Theorem renderBlockContent_state
    (getEntityRanges : string -> CharacterMetaList -> list EntityRange)
    (Entity_get : string -> option EntityInstance) g g' block :
  BLOCK_TYPE.isCHECKABLE_LIST_ITEM (getType block) = false
  \/ checkedStateMap g !! getKey block = checkedStateMap g' !! getKey block ->
  renderBlockContent getEntityRanges Entity_get g block
  = renderBlockContent getEntityRanges Entity_get g' block.
Proof.
  intros H. unfold renderBlockContent.
  destruct (String.eqb _ _); [done |]. f_equal. apply map_ext. intros [k pieces].
  unfold renderEntityPiece.
  assert (Hp : map (renderStylePiece g block) pieces
               = map (renderStylePiece g' block) pieces).
  { apply map_ext. intros [text style].
    unfold renderStylePiece, wrapStyleTags, checkbox.
    destruct H as [-> | ->]; done. }
  by rewrite Hp.
Qed.

Lemma renderBlockContent_state_witness :
  renderBlockContent getEntityRanges_model noEntities sampleGenerator sampleBlock
  = renderBlockContent getEntityRanges_model noEntities listThenOrdered sampleBlock.
Proof. apply renderBlockContent_state. left. reflexivity. Defined.

(** * More on the tag tables and the writers *)

(** The three tables agree on what a list item is: the block types that
    can nest are exactly those that get a list container, and exactly those
    whose only tag is [li]. *)
Theorem list_item_types (blockType : BLOCK_TYPE.t) :
  (canHaveDepth blockType = true <-> getWrapperTag blockType <> None)
  /\ (canHaveDepth blockType = true <-> getTags blockType = ["li"]).
Proof. destruct blockType; simpl; split; split; intros; congruence. Qed.

Lemma writeStartTag_output (blockType : BLOCK_TYPE.t) g :
  output (writeStartTag blockType g)
  = output g ++ map (fun tag => "<" +:+ tag +:+ ">") (getTags blockType).
Proof.
  unfold writeStartTag. generalize (getTags blockType). intros tags.
  revert g. induction tags as [|tag tags IH]; intros g; simpl.
  - by rewrite app_nil_r.
  - rewrite IH. simpl. by rewrite <- app_assoc.
Qed.

Lemma writeEndTag_output (blockType : BLOCK_TYPE.t) g :
  output (writeEndTag blockType g)
  = output g ++ [closeTags (getTags blockType) +:+ String Js.LF EmptyString].
Proof. destruct blockType; reflexivity. Qed.

(** The end tags close the start tags in reverse order, for one tag as for
    two: what [writeStartTag] and [writeEndTag] add to the output is
    [<t1>..<tn>] and the single fragment [</tn>..</t1>] with a newline, and
    they touch no other field. *)
Theorem block_tags_match (blockType : BLOCK_TYPE.t) g :
  output (writeStartTag blockType g)
  = output g ++ map (fun tag => "<" +:+ tag +:+ ">") (getTags blockType)
  /\ output (writeEndTag blockType g)
     = output g ++ [closeTags (getTags blockType) +:+ String Js.LF EmptyString]
  /\ Quiet g (writeStartTag blockType g)
  /\ Quiet g (writeEndTag blockType g).
Proof.
  split; [apply writeStartTag_output |]. split; [apply writeEndTag_output |].
  split; [apply Quiet_writeStartTag | apply Quiet_writeEndTag].
Qed.

Lemma truthy_Some (w : string) : w <> EmptyString -> truthy (Some w) = true.
Proof. by destruct w. Qed.

(** Opening a container and closing it again brings the indent level back
    and leaves no container open; the two tags are written at the same
    indentation. *)
Theorem wrapper_open_close (w : string) g :
  w <> EmptyString -> (0 <= indentLevel g)%Z ->
  exists g1 g2,
    openWrapperTag w g = Ret g1 /\ closeWrapperTag g1 = Ret g2
    /\ wrapperTag g1 = Some w /\ indentLevel g1 = (indentLevel g + 1)%Z
    /\ wrapperTag g2 = None /\ indentLevel g2 = indentLevel g
    /\ currentBlock g2 = currentBlock g
    /\ output g2
       = output g
         ++ [ Js.repeat INDENT (Z.to_nat (indentLevel g));
              "<" +:+ w +:+ ">" +:+ String Js.LF EmptyString;
              Js.repeat INDENT (Z.to_nat (indentLevel g));
              "</" +:+ w +:+ ">" +:+ String Js.LF EmptyString ].
Proof.
  intros Hw Hl. unfold openWrapperTag.
  rewrite indent_Ret by (fields; lia). rewrite bind_Ret. fields.
  eexists. eexists. split; [reflexivity |].
  unfold closeWrapperTag. fields. rewrite (truthy_Some w Hw).
  rewrite indent_Ret by (fields; lia). rewrite bind_Ret. fields.
  split; [reflexivity |]. fields.
  replace (indentLevel g + 1 - 1)%Z with (indentLevel g) by lia.
  repeat split. by rewrite <- !app_assoc.
Qed.

Lemma wrapper_open_close_witness :
  exists g1 g2,
    openWrapperTag "ol" sampleGenerator = Ret g1 /\ closeWrapperTag g1 = Ret g2
    /\ indentLevel g2 = 0%Z /\ wrapperTag g2 = None.
Proof.
  destruct (wrapper_open_close "ol" sampleGenerator) as (g1 & g2 & H1 & H2 & _ & _ & W & L & _).
  - discriminate.
  - simpl. lia.
  - exists g1, g2. repeat split; done.
Defined.

(** [closeWrapperTag] leaves no container open, and it writes nothing when
    none is open: after it has returned, a second call returns the same
    state. *)
Theorem closeWrapperTag_again g g1 :
  closeWrapperTag g = Ret g1 ->
  truthy (wrapperTag g1) = false /\ closeWrapperTag g1 = Ret g1.
Proof.
  unfold closeWrapperTag at 1. destruct (truthy (wrapperTag g)) eqn:Ht.
  - unfold indent. destruct (_ <? 0)%Z; [discriminate |].
    rewrite bind_Ret. intros [= <-]. split; [reflexivity |].
    unfold closeWrapperTag. reflexivity.
  - intros [= <-]. split; [done |]. unfold closeWrapperTag. by rewrite Ht.
Qed.

Lemma closeWrapperTag_again_witness :
  exists g1, closeWrapperTag listThenOrdered = Ret g1
             /\ closeWrapperTag g1 = Ret g1.
Proof.
  eexists. split; [reflexivity |].
  refine (proj2 (closeWrapperTag_again listThenOrdered _ _)). reflexivity.
Defined.

(** * More on the traversal *)

Section TraversalFacts.

Variable getEntityRanges : string -> CharacterMetaList -> list EntityRange.
Variable Entity_get : string -> option EntityInstance.

Local Abbreviation content := (renderBlockContent getEntityRanges Entity_get).
Local Abbreviation processBlock' := (processBlock getEntityRanges Entity_get).
Local Abbreviation generate_loop' := (generate_loop getEntityRanges Entity_get).
Local Abbreviation generate_run' := (generate_run getEntityRanges Entity_get).
Local Abbreviation generate' := (generate getEntityRanges Entity_get).

Lemma indentLevel_baseIndent_eq g :
  indentLevel g = (baseIndent g + wrapperLevel (wrapperTag g))%Z.
Proof. unfold baseIndent, wrapperLevel. destruct (wrapperTag g); lia. Qed.

(** A block that nests no list: [processBlock] changes the container if it
    has to, writes the fragments of the block at the indent level of its
    container, and moves the cursor by one. *)
Lemma processBlock_single (fuel : nat) g block :
  blocks g !! currentBlock g = Some block ->
  wrapperNamed (wrapperTag g) -> (0 <= baseIndent g)%Z ->
  (forall nextBlock, blocks g !! (currentBlock g + 1)%nat = Some nextBlock ->
                     nests block nextBlock = false) ->
  exists g', processBlock' (S fuel) g = Ret g'
    /\ sameDocument g g'
    /\ currentBlock g' = (currentBlock g + 1)%nat
    /\ wrapperTag g' = getWrapperTag (getType block)
    /\ baseIndent g' = baseIndent g
    /\ output g'
       = output g
         ++ (if decide (wrapperTag g = getWrapperTag (getType block)) then []
             else closingFragments g
                  ++ openingFragments g (getWrapperTag (getType block)))
         ++ blockFragments
              (baseIndent g + wrapperLevel (getWrapperTag (getType block)))
              (content g block) (getType block).
Proof.
  intros Hblock Hw Hb Hnest.
  rewrite processBlock_S, Hblock. cbv zeta.
  destruct (switchWrapperTag_ok (getWrapperTag (getType block)) g Hw
              (getWrapperTag_named _) Hb) as (g1 & E1 & S1 & W1 & C1 & O1).
  rewrite E1, bind_Ret.
  pose proof (Steps_baseIndent _ _ S1) as B1.
  assert (L1 : indentLevel g1
               = (baseIndent g + wrapperLevel (getWrapperTag (getType block)))%Z).
  { by rewrite indentLevel_baseIndent_eq, B1, W1. }
  rewrite indent_Ret
    by (rewrite L1; unfold wrapperLevel; destruct (getWrapperTag _); lia).
  rewrite bind_Ret.
  set (g2 := push (Js.repeat INDENT (Z.to_nat (indentLevel g1))) g1).
  set (g3 := writeStartTag (getType block) g2).
  set (g4 := push (content g3 block) g3).
  destruct (Quiet_writeStartTag (getType block) g2) as (S3 & C3 & W3 & L3).
  fold g3 in S3, C3, W3, L3.
  assert (D3 : sameDocument g g3).
  { destruct S1 as (D1 & _), S3 as (D3 & _).
    eapply sameDocument_trans; [exact D1 |]. exact D3. }
  assert (Hplain :
    exists g', Ret (writeEndTag (getType block)
                      (with_currentBlock g4 (currentBlock g4 + 1))) = Ret g'
      /\ sameDocument g g'
      /\ currentBlock g' = (currentBlock g + 1)%nat
      /\ wrapperTag g' = getWrapperTag (getType block)
      /\ baseIndent g' = baseIndent g
      /\ output g'
         = output g
           ++ (if decide (wrapperTag g = getWrapperTag (getType block)) then []
               else closingFragments g
                    ++ openingFragments g (getWrapperTag (getType block)))
           ++ blockFragments
                (baseIndent g + wrapperLevel (getWrapperTag (getType block)))
                (content g block) (getType block)).
  { eexists. split; [reflexivity |].
    destruct (Quiet_writeEndTag (getType block)
                (with_currentBlock g4 (currentBlock g4 + 1)))
      as ((D5 & B5 & _) & C5 & W5 & L5).
    split; [| split; [| split; [| split]]].
    - eapply sameDocument_trans; [exact D3 |].
      destruct D5 as (? & ? & ? & ?). by repeat split.
    - rewrite C5. subst g4. fields. rewrite C3. subst g2. fields. lia.
    - rewrite W5. subst g4. fields. rewrite W3. subst g2. by fields.
    - rewrite B5. rewrite <- B1. unfold baseIndent. subst g4. fields.
      rewrite W3, L3. subst g2. by fields.
    - rewrite writeEndTag_output. subst g4. fields.
      rewrite (renderBlockContent_checkedStateMap _ _ g3 g)
        by (by destruct D3 as (_ & _ & Hc & _)).
      unfold g3. rewrite writeStartTag_output. subst g2. fields.
      rewrite O1, L1. unfold blockFragments.
      rewrite <- !app_assoc. simpl. reflexivity. }
  unfold getNextBlock.
  destruct (blocks g4 !! (currentBlock g4 + 1)%nat) as [nextBlock|] eqn:Hnext;
    [| exact Hplain].
  assert (Hn : nests block nextBlock = false).
  { apply Hnest. rewrite <- Hnext. subst g4. fields.
    destruct D3 as (-> & _). rewrite C3. subst g2. fields. by rewrite C1. }
  unfold nests in Hn. rewrite Hn. exact Hplain.
Qed.

End TraversalFacts.

Section Documents.

Variable getEntityRanges : string -> CharacterMetaList -> list EntityRange.
Variable Entity_get : string -> option EntityInstance.

Local Abbreviation content := (renderBlockContent getEntityRanges Entity_get).
Local Abbreviation processBlock' := (processBlock getEntityRanges Entity_get).
Local Abbreviation generate_loop' := (generate_loop getEntityRanges Entity_get).
Local Abbreviation generate_run' := (generate_run getEntityRanges Entity_get).
Local Abbreviation generate' := (generate getEntityRanges Entity_get).

Lemma noNesting_cons (block : ContentBlock) (rest : list ContentBlock) :
  noNesting (block :: rest) = true ->
  (forall nextBlock, rest !! 0%nat = Some nextBlock -> nests block nextBlock = false)
  /\ noNesting rest = true.
Proof.
  cbn [noNesting]. intros H. apply andb_true_iff in H as [H1 H2].
  split; [| done]. intros nb Hnb. destruct rest as [|x rest]; [done |].
  injection Hnb as ->. by apply negb_true_iff.
Qed.

Lemma noNesting_no_wrapper (l : list ContentBlock) :
  Forall (fun b => getWrapperTag (getType b) = None) l -> noNesting l = true.
Proof.
  induction 1 as [|b l Hb _ IH]; [done |]. cbn [noNesting]. rewrite IH.
  destruct l as [|nb l]; [done |]. unfold nests.
  assert (Hc : canHaveDepth (getType b) = false)
    by (destruct (getType b); simpl in *; congruence).
  by rewrite Hc.
Qed.

(** The loop of [generate] over blocks that all need the container that
    is open (or none) and of which none nests a list: each block adds its
    fragments at the current indent level. *)
Lemma uniform_loop (g0 : MarkupGenerator) (W : option string) (fuel : nat) g :
  checkedStateMap g = checkedStateMap g0 ->
  totalBlocks g = length (blocks g) ->
  wrapperTag g = W -> wrapperNamed W -> (0 <= baseIndent g)%Z ->
  (currentBlock g <= length (blocks g))%nat ->
  (length (blocks g) - currentBlock g + 1 <= fuel)%nat ->
  Forall (fun b => getWrapperTag (getType b) = W) (drop (currentBlock g) (blocks g)) ->
  noNesting (drop (currentBlock g) (blocks g)) = true ->
  exists g', generate_loop' fuel g = Ret g' /\ sameDocument g g'
    /\ wrapperTag g' = W /\ baseIndent g' = baseIndent g
    /\ currentBlock g' = length (blocks g)
    /\ output g'
       = output g
         ++ concat (map (fun b => blockFragments (indentLevel g) (content g0 b) (getType b))
                        (drop (currentBlock g) (blocks g))).
Proof.
  revert g. induction fuel as [|fuel IH];
    intros g Hc Ht HW Hn Hb Hle Hfuel Hall Hnest; [lia |].
  cbn [generate_loop].
  destruct (Nat.ltb_spec (currentBlock g) (totalBlocks g)) as [Hlt | Hge].
  - rewrite Ht in Hlt.
    destruct (lookup_lt_is_Some_2 (blocks g) (currentBlock g) Hlt) as [block Hblock].
    rewrite (drop_S _ _ _ Hblock) in Hall, Hnest |- *.
    apply Forall_cons in Hall as [Hwb Hall].
    apply noNesting_cons in Hnest as [Hnb Hnest].
    destruct fuel as [|fuel']; [lia |].
    destruct (processBlock_single getEntityRanges Entity_get fuel' g block Hblock)
      as (g1 & E1 & D1 & C1 & W1 & B1 & O1).
    { by rewrite HW. }
    { done. }
    { intros nb Hnext. apply Hnb. rewrite lookup_drop, Nat.add_0_r.
      by rewrite <- Nat.add_1_r. }
    rewrite E1, bind_Ret.
    pose proof D1 as (Dblocks & Dtotal & Dchecked & _).
    assert (L1 : indentLevel g1 = indentLevel g).
    { rewrite !indentLevel_baseIndent_eq, B1, W1, HW, Hwb. done. }
    destruct (IH g1) as (g2 & E2 & D2 & W2 & B2 & C2 & O2).
    + congruence.
    + congruence.
    + congruence.
    + done.
    + by rewrite B1.
    + rewrite Dblocks. lia.
    + rewrite Dblocks. lia.
    + rewrite Dblocks, C1. by rewrite Nat.add_1_r.
    + rewrite Dblocks, C1. by rewrite Nat.add_1_r.
    + exists g2. split; [done |]. split; [by eapply sameDocument_trans |].
      split; [done |]. split; [congruence |]. split; [congruence |].
      rewrite O2, O1, L1, Dblocks, C1, HW, Hwb.
      destruct (decide (W = W)) as [_ | Hne]; [| done].
      cbn [app map concat]. rewrite Nat.add_1_r.
      rewrite (renderBlockContent_checkedStateMap _ _ g g0) by done.
      rewrite <- !app_assoc. f_equal. f_equal.
      rewrite indentLevel_baseIndent_eq, HW. done.
  - rewrite Ht in Hge. assert (Heq : currentBlock g = length (blocks g)) by lia.
    exists g. split; [done |]. split; [apply sameDocument_refl |].
    split; [done |]. split; [done |]. split; [done |].
    rewrite Heq, drop_all. simpl. by rewrite app_nil_r.
Qed.

Lemma generate_loop_S (fuel : nat) g :
  generate_loop' (S fuel) g
  = if (currentBlock g <? totalBlocks g)%nat
    then processBlock' fuel g ≫= generate_loop' fuel
    else Ret g.
Proof. reflexivity. Qed.

Lemma generate_init_facts g :
  wrapperTag (generate_init g) = None
  /\ baseIndent (generate_init g) = 0%Z
  /\ indentLevel (generate_init g) = 0%Z
  /\ currentBlock (generate_init g) = 0%nat
  /\ blocks (generate_init g) = contentState g
  /\ totalBlocks (generate_init g) = length (contentState g)
  /\ output (generate_init g) = []
  /\ checkedStateMap (generate_init g) = checkedStateMap g.
Proof. by repeat split. Qed.

(** A document without list items: the output is, block after block in
    document order, the empty indentation, the start tags, the content and
    the end tags with a newline; no container is opened, and the depth of
    the blocks plays no part. *)
Theorem plain_document_markup g :
  Forall (fun b => getWrapperTag (getType b) = None) (contentState g) ->
  exists g', generate_run' g = Ret g'
    /\ output g'
       = concat (map (fun b => blockFragments 0 (content g b) (getType b))
                     (contentState g))
    /\ generate' g = Ret (Js.trim (Js.join EmptyString (output g'))).
Proof.
  intros Hall. unfold generate, generate_run. cbv zeta.
  destruct (generate_init_facts g) as (W0 & B0 & L0 & C0 & Bl0 & T0 & O0 & Ch0).
  destruct (uniform_loop g None (2 * totalBlocks (generate_init g) + 1)
              (generate_init g)) as (g1 & E1 & D1 & W1 & B1 & C1 & O1).
  { done. }
  { by rewrite T0, Bl0. }
  { done. }
  { by left. }
  { rewrite B0. lia. }
  { rewrite C0. lia. }
  { rewrite T0, Bl0, C0. lia. }
  { by rewrite C0, Bl0. }
  { rewrite C0, Bl0. cbn [drop]. by apply noNesting_no_wrapper. }
  rewrite E1, bind_Ret.
  assert (E2 : closeWrapperTag g1 = Ret g1).
  { unfold closeWrapperTag. by rewrite W1. }
  rewrite E2, bind_Ret. exists g1. split; [done |]. split; [| done].
  by rewrite O1, O0, L0, C0, Bl0.
Qed.

(** A flat list: when every block of a non-empty document needs the same
    list container and none nests a list, the output is the opening of the
    container, the fragments of every item at indent level 1 in document
    order, and the closing of the container; the container is opened once
    for the whole run. *)
Theorem flat_list_markup g (w : string) :
  contentState g <> [] ->
  Forall (fun b => getWrapperTag (getType b) = Some w) (contentState g) ->
  noNesting (contentState g) = true ->
  exists g', generate_run' g = Ret g'
    /\ output g'
       = [ EmptyString; "<" +:+ w +:+ ">" +:+ String Js.LF EmptyString ]
         ++ concat (map (fun b => blockFragments 1 (content g b) (getType b))
                        (contentState g))
         ++ [ EmptyString; "</" +:+ w +:+ ">" +:+ String Js.LF EmptyString ]
    /\ generate' g = Ret (Js.trim (Js.join EmptyString (output g'))).
Proof.
  intros Hne Hall Hnest.
  destruct (contentState g) as [|block rest] eqn:Hdoc; [done |]. clear Hne.
  unfold generate, generate_run. cbv zeta.
  destruct (generate_init_facts g) as (W0 & B0 & L0 & C0 & Bl0 & T0 & O0 & Ch0).
  rewrite Hdoc in Bl0, T0.
  apply Forall_cons in Hall as [Hwb Hall].
  apply noNesting_cons in Hnest as [Hnb Hnest].
  assert (Hnamed : wrapperNamed (Some w)).
  { rewrite <- Hwb. apply getWrapperTag_named. }
  rewrite T0. cbn [length].
  replace (2 * S (length rest) + 1)%nat with (S (S (2 * length rest + 1))) by lia.
  rewrite generate_loop_S, C0, T0. cbn [length Nat.ltb Nat.leb].
  destruct (processBlock_single getEntityRanges Entity_get (2 * length rest + 1)
              (generate_init g) block)
    as (g1 & E1 & D1 & C1 & W1 & B1 & O1).
  { by rewrite C0, Bl0. }
  { rewrite W0. by left. }
  { rewrite B0. lia. }
  { intros nb Hnext. apply Hnb. by rewrite C0, Bl0 in Hnext. }
  rewrite E1, bind_Ret.
  pose proof D1 as (Dblocks & Dtotal & Dchecked & _).
  rewrite Hwb in W1.
  assert (L1 : indentLevel g1 = 1%Z).
  { rewrite indentLevel_baseIndent_eq, B1, B0, W1. done. }
  destruct (uniform_loop g (Some w) (S (2 * length rest + 1)) g1)
    as (g2 & E2 & D2 & W2 & B2 & C2 & O2).
  { congruence. }
  { by rewrite Dtotal, Dblocks, T0, Bl0. }
  { done. }
  { done. }
  { rewrite B1, B0. lia. }
  { rewrite Dblocks, C1, C0, Bl0. simpl. lia. }
  { rewrite Dblocks, C1, C0, Bl0. simpl. lia. }
  { by rewrite Dblocks, C1, C0, Bl0. }
  { by rewrite Dblocks, C1, C0, Bl0. }
  rewrite E2, bind_Ret.
  destruct (closeWrapperTag_ok g2) as (g3 & E3 & _ & _ & _ & O3).
  { by rewrite W2. }
  { rewrite B2, B1, B0. lia. }
  rewrite E3, bind_Ret. exists g3. split; [done |]. split; [| done].
  assert (L2 : indentLevel g2 = 1%Z).
  { rewrite indentLevel_baseIndent_eq, B2, B1, B0, W2. done. }
  rewrite O3, O2, O1, O0, L1, W0, Hwb, B0, Dblocks, C1, C0, Bl0.
  unfold closingFragments, openingFragments. rewrite W0, W2, L2, B0.
  destruct (decide (None = Some w)) as [? | _]; [done |].
  cbn [app map concat drop Nat.add wrapperLevel Z.add].
  rewrite (renderBlockContent_checkedStateMap _ _ (generate_init g) g) by done.
  rewrite <- !app_assoc. reflexivity.
Qed.

End Documents.

Lemma plain_document_markup_witness :
  exists g', generate_run getEntityRanges_model noEntities
               (new_MarkupGenerator plainDocument ∅) = Ret g'
    /\ output g'
       = concat (map (fun b => blockFragments 0
                                 (renderBlockContent getEntityRanges_model noEntities
                                    (new_MarkupGenerator plainDocument ∅) b)
                                 (getType b))
                     plainDocument).
Proof.
  destruct (plain_document_markup getEntityRanges_model noEntities
              (new_MarkupGenerator plainDocument ∅)) as (g' & E & O & _).
  - repeat constructor.
  - exists g'. split; [exact E | exact O].
Defined.

Example plain_document_example :
  stateToHTML getEntityRanges_model noEntities plainDocument ∅
  = Ret ("<h1>title</h1>" +:+ String Js.LF
         ("<div>text</div>" +:+ String Js.LF
          "<pre><code><br/></code></pre>")).
Proof. vm_compute. reflexivity. Qed.

Lemma flat_list_markup_witness :
  exists g', generate_run getEntityRanges_model noEntities
               (new_MarkupGenerator flatListDocument ∅) = Ret g'
    /\ output g'
       = [ EmptyString; "<ul>" +:+ String Js.LF EmptyString ]
         ++ concat (map (fun b => blockFragments 1
                                    (renderBlockContent getEntityRanges_model noEntities
                                       (new_MarkupGenerator flatListDocument ∅) b)
                                    (getType b))
                        flatListDocument)
         ++ [ EmptyString; "</ul>" +:+ String Js.LF EmptyString ].
Proof.
  destruct (flat_list_markup getEntityRanges_model noEntities
              (new_MarkupGenerator flatListDocument ∅) "ul") as (g' & E & O & _).
  - discriminate.
  - repeat constructor.
  - reflexivity.
  - exists g'. split; [exact E | exact O].
Defined.

Example flat_list_example :
  stateToHTML getEntityRanges_model noEntities flatListDocument ∅
  = Ret ("<ul>" +:+ String Js.LF
         ("  <li>one</li>" +:+ String Js.LF
         ("  <li><input type=" +:+ DQ +:+ "checkbox" +:+ DQ +:+ " />two</li>"
          +:+ String Js.LF
         ("  <li>three</li>" +:+ String Js.LF
          "</ul>")))).
Proof. vm_compute. reflexivity. Qed.

Section EndState.

Variable getEntityRanges : string -> CharacterMetaList -> list EntityRange.
Variable Entity_get : string -> option EntityInstance.

Local Abbreviation content := (renderBlockContent getEntityRanges Entity_get).
Local Abbreviation processBlock' := (processBlock getEntityRanges Entity_get).
Local Abbreviation processBlocksAtDepth' :=
  (processBlocksAtDepth getEntityRanges Entity_get).
Local Abbreviation generate_loop' := (generate_loop getEntityRanges Entity_get).
Local Abbreviation generate_run' := (generate_run getEntityRanges Entity_get).
Local Abbreviation generate' := (generate getEntityRanges Entity_get).

Lemma generate_loop_cursor (fuel : nat) g :
  totalBlocks g = length (blocks g) ->
  wrapperNamed (wrapperTag g) -> (0 <= baseIndent g)%Z ->
  (currentBlock g <= length (blocks g))%nat ->
  (2 * (length (blocks g) - currentBlock g) + 1 <= fuel)%nat ->
  exists g', generate_loop' fuel g = Ret g' /\ Steps g g'
             /\ wrapperNamed (wrapperTag g')
             /\ currentBlock g' = length (blocks g).
Proof.
  revert g. induction fuel as [|fuel IH]; intros g Ht Hw Hb Hle Hfuel; [lia |].
  rewrite generate_loop_S.
  destruct (Nat.ltb_spec (currentBlock g) (totalBlocks g)) as [Hlt | Hge].
  - rewrite Ht in Hlt.
    destruct (lookup_lt_is_Some_2 (blocks g) (currentBlock g) Hlt) as [block Hblock].
    destruct (proj1 (traversal_ok getEntityRanges Entity_get fuel) g block Hblock Hw Hb)
      as (g1 & E1 & S1 & W1 & C1 & _); [lia |].
    rewrite E1, bind_Ret.
    destruct (IH g1) as (g2 & E2 & S2 & W2 & C2).
    + by rewrite (Steps_totalBlocks _ _ S1), (Steps_blocks _ _ S1).
    + rewrite W1. apply getWrapperTag_named.
    + by rewrite (Steps_baseIndent _ _ S1).
    + rewrite (Steps_blocks _ _ S1). lia.
    + rewrite (Steps_blocks _ _ S1). lia.
    + exists g2. split; [done |]. split; [by eapply Steps_trans |].
      split; [done |]. by rewrite C2, (Steps_blocks _ _ S1).
  - exists g. split; [done |]. split; [apply Steps_refl |]. split; [done |].
    rewrite Ht in Hge. lia.
Qed.

(** The state [generate] ends in. *)
Lemma generate_run_end g :
  exists g', generate_run' g = Ret g'
    /\ blocks g' = contentState g /\ contentState g' = contentState g
    /\ checkedStateMap g' = checkedStateMap g
    /\ totalBlocks g' = length (contentState g)
    /\ currentBlock g' = length (contentState g)
    /\ indentLevel g' = 0%Z /\ wrapperTag g' = None.
Proof.
  unfold generate_run. cbv zeta.
  destruct (generate_init_facts g) as (W0 & B0 & L0 & C0 & Bl0 & T0 & O0 & Ch0).
  destruct (generate_loop_cursor (2 * totalBlocks (generate_init g) + 1)
              (generate_init g)) as (g1 & E1 & S1 & W1 & C1).
  { by rewrite T0, Bl0. }
  { rewrite W0. by left. }
  { rewrite B0. lia. }
  { rewrite C0. lia. }
  { rewrite T0, Bl0, C0. lia. }
  rewrite E1, bind_Ret.
  destruct (closeWrapperTag_ok g1 W1) as (g2 & E2 & S2 & W2 & C2 & _).
  { rewrite (Steps_baseIndent _ _ S1), B0. lia. }
  exists g2. split; [done |].
  destruct (Steps_trans _ _ _ S1 S2) as ((Db & Dt & Dc & Ds) & B2 & _).
  rewrite Db, Ds, Dc, Dt, C2, C1, Bl0, T0.
  do 5 (split; [done |]). split; [| done].
  rewrite indentLevel_baseIndent_eq, B2, B0, W2. done.
Qed.


(** [generate] consumes the whole document: it ends with the cursor behind
    the last block, the indent level back at 0, no container open, and the
    document and the checked-state map as they were given. *)
Theorem generate_end_state g :
  exists g', generate_run getEntityRanges Entity_get g = Ret g'
    /\ blocks g' = contentState g /\ contentState g' = contentState g
    /\ checkedStateMap g' = checkedStateMap g
    /\ totalBlocks g' = length (contentState g)
    /\ currentBlock g' = length (contentState g)
    /\ indentLevel g' = 0%Z /\ wrapperTag g' = None.
Proof. apply generate_run_end. Qed.

(** [generate] starts from fresh fields each time: called again on the
    generator it has left behind, it ends in the same state and returns the
    same markup. *)
Theorem generate_again g :
  exists g', generate_run getEntityRanges Entity_get g = Ret g'
    /\ generate_run getEntityRanges Entity_get g' = Ret g'
    /\ generate getEntityRanges Entity_get g' = generate getEntityRanges Entity_get g.
Proof.
  destruct (generate_run_end g) as (g' & E & _ & Hs & Hc & _).
  exists g'. split; [done |].
  assert (Hinit : generate_init g' = generate_init g).
  { unfold generate_init. by rewrite Hs, Hc. }
  assert (Hrun : generate_run' g' = generate_run' g).
  { unfold generate_run. by rewrite Hinit. }
  split; [by rewrite Hrun |]. unfold generate. by rewrite Hrun.
Qed.

(** A block that nests no list (it is no list item, or the next block is
    not exactly one level deeper, or it is the last block) takes one step:
    [processBlock] changes the container if the block needs another one,
    writes the indentation, the start tags, the content and the end tags of
    the block, and moves the cursor by exactly one. *)
Theorem processBlock_no_nesting (fuel : nat) g block :
  blocks g !! currentBlock g = Some block ->
  wrapperNamed (wrapperTag g) -> (0 <= baseIndent g)%Z ->
  (forall nextBlock, blocks g !! (currentBlock g + 1)%nat = Some nextBlock ->
                     nests block nextBlock = false) ->
  exists g', processBlock' (S fuel) g = Ret g'
    /\ currentBlock g' = (currentBlock g + 1)%nat
    /\ wrapperTag g' = getWrapperTag (getType block)
    /\ output g'
       = output g
         ++ (if decide (wrapperTag g = getWrapperTag (getType block)) then []
             else closingFragments g
                  ++ openingFragments g (getWrapperTag (getType block)))
         ++ blockFragments
              (baseIndent g + wrapperLevel (getWrapperTag (getType block)))
              (content g block) (getType block).
Proof.
  intros Hblock Hw Hb Hnest.
  destruct (processBlock_single getEntityRanges Entity_get fuel g block
              Hblock Hw Hb Hnest) as (g' & E & _ & C & W & _ & O).
  by exists g'.
Qed.

End EndState.

Lemma processBlock_no_nesting_witness :
  exists g', processBlock getEntityRanges_model noEntities 1 listThenOrdered = Ret g'
    /\ currentBlock g' = 2%nat /\ wrapperTag g' = Some "ol".
Proof.
  destruct (processBlock_no_nesting getEntityRanges_model noEntities 0 listThenOrdered
              (plainBlock "b" BLOCK_TYPE.ORDERED_LIST_ITEM 0 "two"))
    as (g' & E & C & W & _).
  - reflexivity.
  - right. left. reflexivity.
  - vm_compute. discriminate.
  - intros nb H. discriminate H.
  - exists g'. repeat split; done.
Defined.

Section Nesting.

Variable getEntityRanges : string -> CharacterMetaList -> list EntityRange.
Variable Entity_get : string -> option EntityInstance.

Local Abbreviation content := (renderBlockContent getEntityRanges Entity_get).
Local Abbreviation processBlock' := (processBlock getEntityRanges Entity_get).
Local Abbreviation processBlocksAtDepth' :=
  (processBlocksAtDepth getEntityRanges Entity_get).



End Nesting.


(** * The start tag of the second source file *)

(** For a block type of alignment the second file's [writeStartTag] writes
    one [div] with the alignment as its style, which the end tag [</div>]
    of [writeEndTag] closes; for every other block type it writes what the
    first file's [writeStartTag] writes. *)
Theorem writeStartTag_old_alignment (blockType : BLOCK_TYPE.t) (g : MarkupGenerator) :
  match alignment blockType with
  | Some a =>
      output (writeStartTag_old blockType g)
      = output g ++ ["<div style=" +:+ DQ +:+ "text-align: " +:+ a +:+ ";" +:+ DQ +:+ ">"]
      /\ output (writeEndTag blockType g)
         = output g ++ ["</div>" +:+ String Js.LF EmptyString]
  | None => writeStartTag_old blockType g = writeStartTag blockType g
  end.
Proof.
  unfold alignment, writeStartTag_old, writeStartTag.
  destruct blockType as [| | | | | | | | | | | | | n]; try reflexivity.
  unfold isNamed.
  destruct (String.eqb n OLD_BLOCK_TYPES.ALIGN_RIGHT) eqn:E1; [by split |].
  destruct (String.eqb n OLD_BLOCK_TYPES.ALIGN_CENTER) eqn:E2; [by split |].
  destruct (String.eqb n OLD_BLOCK_TYPES.ALIGN_JUSTIFY) eqn:E3; [by split |].
  reflexivity.
Qed.

(** * Where [processBlocksAtDepth] stops *)

Section Stops.

Variable getEntityRanges : string -> CharacterMetaList -> list EntityRange.
Variable Entity_get : string -> option EntityInstance.

Local Abbreviation processBlocksAtDepth' :=
  (processBlocksAtDepth getEntityRanges Entity_get).

(** With fuel for the blocks left, [processBlocksAtDepth] returns with the
    same blocks and no container open, and its cursor, which never moves
    back, is past the last block or on a block of another depth: the loop
    goes on as long as the block under the cursor has the depth asked
    for. *)
Theorem processBlocksAtDepth_stops (fuel depth : nat) (g : MarkupGenerator) :
  wrapperNamed (wrapperTag g) -> (0 <= baseIndent g)%Z ->
  (currentBlock g <= length (blocks g))%nat ->
  (2 * (length (blocks g) - currentBlock g) + 1 <= fuel)%nat ->
  exists g', processBlocksAtDepth' fuel depth g = Ret g'
    /\ blocks g' = blocks g /\ wrapperTag g' = None
    /\ (currentBlock g <= currentBlock g')%nat
    /\ match blocks g !! currentBlock g' with
       | Some block => getDepth block <> depth
       | None => currentBlock g' = length (blocks g)
       end.
Proof.
  revert g. induction fuel as [|fuel IH]; intros g Hw Hb Hle Hfuel; [lia |].
  rewrite processBlocksAtDepth_S.
  assert (Hclose :
    match blocks g !! currentBlock g with
    | Some block => getDepth block <> depth
    | None => currentBlock g = length (blocks g)
    end ->
    exists g', closeWrapperTag g = Ret g'
      /\ blocks g' = blocks g /\ wrapperTag g' = None
      /\ (currentBlock g <= currentBlock g')%nat
      /\ match blocks g !! currentBlock g' with
         | Some block => getDepth block <> depth
         | None => currentBlock g' = length (blocks g)
         end).
  { intros Hstop. destruct (closeWrapperTag_ok g Hw Hb) as (g' & E & St & W & C & _).
    exists g'. split; [done |]. split; [by apply Steps_blocks |].
    split; [done |]. rewrite C. split; [lia | done]. }
  destruct (blocks g !! currentBlock g) as [block|] eqn:Hblock.
  2: { apply Hclose. apply lookup_ge_None in Hblock. lia. }
  destruct (getDepth block =? depth)%nat eqn:Hd.
  2: { apply Hclose. by apply Nat.eqb_neq. }
  clear Hclose. pose proof (lookup_lt_Some _ _ _ Hblock) as Hlt.
  destruct (proj1 (traversal_ok getEntityRanges Entity_get fuel) g block Hblock Hw Hb)
    as (g1 & E1 & S1 & W1 & C1 & _); [lia |].
  rewrite E1, bind_Ret.
  pose proof (Steps_blocks _ _ S1) as B1.
  destruct (IH g1) as (g2 & E2 & B2 & W2 & C2 & Hstop).
  { rewrite W1. apply getWrapperTag_named. }
  { by rewrite (Steps_baseIndent _ _ S1). }
  { rewrite B1. lia. }
  { rewrite B1. lia. }
  exists g2. split; [done |]. split; [congruence |]. split; [done |].
  split; [lia |]. by rewrite B1 in Hstop.
Qed.

End Stops.

Lemma processBlocksAtDepth_stops_witness :
  exists g', processBlocksAtDepth getEntityRanges_model noEntities 7 1
               (with_currentBlock (generate_init (new_MarkupGenerator nestedListDocument ∅)) 1)
             = Ret g'
    /\ currentBlock g' = 2%nat.
Proof.
  destruct (processBlocksAtDepth_stops getEntityRanges_model noEntities 7 1
              (with_currentBlock (generate_init (new_MarkupGenerator nestedListDocument ∅)) 1))
    as (g' & E & B & W & C & Hstop).
  - by left.
  - vm_compute. discriminate.
  - vm_compute. lia.
  - vm_compute. lia.
  - exists g'. split; [exact E |].
    vm_compute in E. injection E as <-. reflexivity.
Defined.
